(** * The Research orchestration engine of batchflow
    (batchflow/research/research.py): DynamicQueue, ResearchResults and the
    start of Research.run, embedded as executable definitions, with the
    properties of the specification stated and proved over them. *)

From Stdlib Require Import ZArith Lia.
From stdpp Require Import gmap strings list pretty sorting.

Set Default Proof Using "Type".

(** ** Python values and dictionaries *)

(** The values that occur in configurations and result series. *)
Inductive pyval : Type :=
  | VNone
  | VInt (z : Z)
  | VStr (s : string).

#[global] Instance pyval_eq_dec : EqDecision pyval.
Proof. solve_decision. Defined.

(** The exceptions the modelled code raises. *)
Inductive exn : Type :=
  | ValueError (msg : string)
  | NameError (name : string)
  | OtherError (msg : string).

#[global] Instance exn_eq_dec : EqDecision exn.
Proof. solve_decision. Defined.

(** A Python [dict]: the items in insertion order.  Assigning to a key that
    is present replaces its value in place; assigning to a new key appends. *)
Module PyDict.
Section Dict.
Context {K V : Type} `{EqDecision K}.

Fixpoint set (k : K) (v : V) (d : list (K * V)) : list (K * V) :=
  match d with
  | [] => [(k, v)]
  | (k', v') :: d' =>
      if decide (k = k') then (k, v) :: d' else (k', v') :: set k v d'
  end.

Fixpoint get (k : K) (d : list (K * V)) : option V :=
  match d with
  | [] => None
  | (k', v') :: d' => if decide (k = k') then Some v' else get k d'
  end.

Definition keys (d : list (K * V)) : list K := d.*1.

(** [{**d1, **d2}] *)
Definition merge (d1 d2 : list (K * V)) : list (K * V) :=
  foldl (fun d kv => set kv.1 kv.2 d) d1 d2.

(** A list of items is a dictionary when no key occurs twice. *)
Definition wf (d : list (K * V)) : Prop := NoDup (keys d).
End Dict.
End PyDict.

(** ** Configurations and domains *)

(** Modelled from the spec: the Configuration class (batchflow's Config and
    its alias wrapper) is not part of the sources at hand.  Following the data
    model of the specification, a Configuration is a mapping from option
    paths to values which carries, for every entry, a full form and an alias
    (short form); it can be queried in either form and have keys removed. *)
Record ConfigItem : Type := mkItem {
  item_key : string;
  item_value : pyval;
  item_key_alias : string;
  item_value_alias : pyval
}.

#[global] Instance ConfigItem_eq_dec : EqDecision ConfigItem.
Proof. solve_decision. Defined.

Definition Config : Type := list ConfigItem.

(** [config.config()]: the full form, as a dictionary. *)
Definition config_full (c : Config) : list (string * pyval) :=
  PyDict.merge [] (map (fun i => (item_key i, item_value i)) c).

(** [config.alias()]: the short form, as a dictionary. *)
Definition config_alias (c : Config) : list (string * pyval) :=
  PyDict.merge [] (map (fun i => (item_key_alias i, item_value_alias i)) c).


(** When the update function of a domain fires. *)
Inductive UpdateEach : Type :=
  | UpdateLast
  | UpdateEvery (n : nat).

(** Modelled from the spec: the Domain class (research/domain.py) is not part
    of the sources at hand.  Following its contract in the specification, a
    Domain is an iterator of Configurations that raises the exhaustion signal
    when none remain, with a [size] (known count, or unknown), an optional
    update function and its cadence.  The iterator is the sequence [dom_gen]
    of the configurations it yields ([None] from the point of exhaustion on;
    a sequence that never reaches [None] is an infinite domain) together with
    the number [dom_pos] of configurations drawn so far. *)
Record Domain : Type := mkDomain {
  dom_size : option nat;
  dom_update_func : bool;
  dom_update_each : UpdateEach;
  dom_gen : nat -> option Config;
  dom_pos : nat
}.

Definition dom_skip (k : nat) (d : Domain) : Domain :=
  {| dom_size := dom_size d;
     dom_update_func := dom_update_func d;
     dom_update_each := dom_update_each d;
     dom_gen := dom_gen d;
     dom_pos := dom_pos d + k |}.

(** [next(domain)]: the next configuration, or [None] for StopIteration. *)
Definition dom_next (d : Domain) : option Config * Domain :=
  match dom_gen d (dom_pos d) with
  | Some c => (Some c, dom_skip 1 d)
  | None => (None, d)
  end.

(** A domain built from a finite list of configurations, not yet drawn from. *)
Definition domain_of_list (l : list Config) : Domain :=
  {| dom_size := Some (length l);
     dom_update_func := false;
     dom_update_each := UpdateLast;
     dom_gen := fun i => l !! i;
     dom_pos := 0 |}.

(** Exactly [r] configurations remain in the domain. *)
Definition remains (d : Domain) (r : nat) : Prop :=
  (forall i, i < r -> is_Some (dom_gen d (dom_pos d + i))) /\
  dom_gen d (dom_pos d + r) = None.

(** The first [k] configurations of the sequence [g] from position [p] on,
    cut at the point of exhaustion. *)
Fixpoint upcoming (g : nat -> option Config) (p k : nat) : list Config :=
  match k with
  | 0 => []
  | S k' =>
      match g p with
      | Some c => c :: upcoming g (S p) k'
      | None => []
      end
  end.

(** ** DynamicQueue *)

Module DynamicQueue.

(** A queue item: [(task_id, [config_per_branch])], or [None], the signal
    that stops a worker. *)
Definition task : Type := nat * list Config.

(** [mp.JoinableQueue]: the items not yet taken, and the count of items put
    and not yet marked done, on which [join] waits. *)
Record JoinableQueue : Type := mkJQ {
  jq_items : list (option task);
  jq_unfinished : nat
}.

Definition jq_put (x : option task) (jq : JoinableQueue) : JoinableQueue :=
  {| jq_items := jq_items jq ++ [x]; jq_unfinished := S (jq_unfinished jq) |}.

(** [get] by a consumer; [None] while the queue is empty (the consumer
    blocks). *)
Definition jq_get (jq : JoinableQueue) : option (option task * JoinableQueue) :=
  match jq_items jq with
  | [] => None
  | x :: rest => Some (x, {| jq_items := rest; jq_unfinished := jq_unfinished jq |})
  end.

(** [task_done] by a consumer; an error when called more often than items
    were put. *)
Definition jq_task_done (jq : JoinableQueue) : option JoinableQueue :=
  match jq_unfinished jq with
  | 0 => None
  | S u => Some {| jq_items := jq_items jq; jq_unfinished := u |}
  end.

(** [queue.join()] returns once every item put has been marked done; until
    then the caller is blocked. *)
Definition jq_join_released (jq : JoinableQueue) : bool :=
  Nat.eqb (jq_unfinished jq) 0.

Record t : Type := mkQueue {
  domain : Domain;
  n_branches : nat;
  queue : JoinableQueue;
  withdrawn_tasks : nat;
  finished_tasks : nat
}.

(** [DynamicQueue(domain, research, n_branches)] *)
Definition init (d : Domain) (b : nat) : t :=
  {| domain := d; n_branches := b;
     queue := {| jq_items := []; jq_unfinished := 0 |};
     withdrawn_tasks := 0; finished_tasks := 0 |}.

(** [self.put(x)], forwarded to the inner queue by [__getattr__]. *)
Definition put (x : option task) (q : t) : t :=
  {| domain := domain q; n_branches := n_branches q;
     queue := jq_put x (queue q);
     withdrawn_tasks := withdrawn_tasks q;
     finished_tasks := finished_tasks q |}.

(** The inner loop of [next_tasks]: [for _ in range(n_branches):
    branch_tasks.append(next(self.domain))].  The result is [branch_tasks],
    the domain, and whether StopIteration was raised. *)
Fixpoint draw_batch (d : Domain) (b : nat) (branch_tasks : list Config)
  : list Config * Domain * bool :=
  match b with
  | 0 => (branch_tasks, d, false)
  | S b' =>
      match dom_next d with
      | (Some c, d') => draw_batch d' b' (branch_tasks ++ [c])
      | (None, d') => (branch_tasks, d', true)
      end
  end.

(** The outer loop of [next_tasks], [for i in range(n_tasks)].  The result is
    [configs], the domain, and whether the loop was left through the handler
    of StopIteration with a batch begun ([len(branch_tasks) > 0]). *)
Fixpoint draw_tasks (d : Domain) (b n : nat) (configs : list (list Config))
  : list (list Config) * Domain * bool :=
  match n with
  | 0 => (configs, d, false)
  | S n' =>
      match draw_batch d b [] with
      | (branch_tasks, d', false) =>
          draw_tasks d' b n' (configs ++ [branch_tasks])
      | (branch_tasks, d', true) =>
          if Nat.ltb 0 (length branch_tasks)
          then (configs ++ [branch_tasks], d', true)
          else (configs, d', false)
      end
  end.

(** [for i, executor_configs in enumerate(configs):
       self.put((self.withdrawn_tasks + i, executor_configs))] *)
Fixpoint put_all (w i : nat) (configs : list (list Config)) (jq : JoinableQueue)
  : JoinableQueue :=
  match configs with
  | [] => jq
  | executor_configs :: rest =>
      put_all w (S i) rest (jq_put (Some (w + i, executor_configs)) jq)
  end.

(** [next_tasks(n_tasks)]: the value returned and the queue afterwards. *)
Definition next_tasks (n_tasks : nat) (q : t) : nat * t :=
  let '(configs, d', _) := draw_tasks (domain q) (n_branches q) n_tasks [] in
  let n := length configs in
  (n, {| domain := d'; n_branches := n_branches q;
         queue := put_all (withdrawn_tasks q) 0 configs (queue q);
         withdrawn_tasks := withdrawn_tasks q + n;
         finished_tasks := finished_tasks q |}).

(** [stop_workers(n_workers)] *)
Fixpoint stop_workers (n_workers : nat) (q : t) : t :=
  match n_workers with
  | 0 => q
  | S n => stop_workers n (put None q)
  end.

(** [join()]: [None] while the inner [queue.join()] still blocks. *)
Definition join (q : t) : option t :=
  if jq_join_released (queue q)
  then Some {| domain := domain q; n_branches := n_branches q;
               queue := queue q;
               withdrawn_tasks := withdrawn_tasks q;
               finished_tasks := finished_tasks q + 1 |}
  else None.

Definition in_progress (q : t) : bool :=
  negb (Nat.eqb (withdrawn_tasks q) (finished_tasks q)).

(** A consumer takes one item and marks it done ([get] then [task_done], both
    forwarded to the inner queue); [None] when there is nothing to take. *)
Definition consume (q : t) : option t :=
  match jq_get (queue q) with
  | None => None
  | Some (_, jq) =>
      match jq_task_done jq with
      | None => None
      | Some jq' =>
          Some {| domain := domain q; n_branches := n_branches q;
                  queue := jq';
                  withdrawn_tasks := withdrawn_tasks q;
                  finished_tasks := finished_tasks q |}
      end
  end.

(** The consumers take [k] items, one after the other. *)
Fixpoint drain (k : nat) (q : t) : option t :=
  match k with
  | 0 => Some q
  | S k' => match consume q with Some q' => drain k' q' | None => None end
  end.

(** The producer calls [next_tasks(n_tasks)] until it returns 0. *)
Fixpoint exhaust (fuel n_tasks : nat) (q : t) : option t :=
  match fuel with
  | 0 => None
  | S fuel' =>
      let '(r, q') := next_tasks n_tasks q in
      if Nat.eqb r 0 then Some q' else exhaust fuel' n_tasks q'
  end.

(** The ids of the tasks in a list of queue items. *)
Definition task_ids (items : list (option task)) : list nat :=
  omap (fun x : option task => fst <$> x) items.

(** The operations of the producer and of the consumers. *)
Inductive op : Type :=
  | OpNextTasks (n_tasks : nat)
  | OpJoin
  | OpConsume.

Definition step (o : op) (q : t) : option t :=
  match o with
  | OpNextTasks n => Some (snd (next_tasks n q))
  | OpJoin => join q
  | OpConsume => consume q
  end.

Fixpoint run_ops (ops : list op) (q : t) : option t :=
  match ops with
  | [] => Some q
  | o :: rest => match step o q with Some q' => run_ops rest q' | None => None end
  end.

(** The same, with [join] called only while [in_progress()] holds. *)
Definition guarded_step (o : op) (q : t) : option t :=
  match o with
  | OpJoin => if in_progress q then join q else None
  | _ => step o q
  end.

Fixpoint run_guarded (ops : list op) (q : t) : option t :=
  match ops with
  | [] => Some q
  | o :: rest =>
      match guarded_step o q with Some q' => run_guarded rest q' | None => None end
  end.

(** ceil(s / b) *)
Definition ceil_div (s b : nat) : nat := (s + b - 1) / b.

End DynamicQueue.

(** ** ResearchResults *)

Module ResearchResults.

(** One named result series: iteration -> value. *)
Definition series : Type := list (nat * pyval).

(** The results of one experiment: name -> series. *)
Definition experiment_results : Type := list (string * series).

(** The store.  [results] and [configs] are [mp.Manager().dict()] objects:
    the dictionaries live in a manager process and the store holds proxies
    to them.  Writing through a proxy sends the (pickled) value to the
    manager; reading through it returns an unpickled copy of the stored
    value, never a reference to it. *)
Record t : Type := mkStore {
  name : string;
  dump_results : bool;
  results : list (string * experiment_results);
  configs : list (string * Config)
}.

(** [ResearchResults(name, dump_results)] *)
Definition init (nm : string) (dump : bool) : t :=
  {| name := nm; dump_results := dump; results := []; configs := [] |}.

(** [put(id, results, config)] *)
Definition put (id : string) (r : experiment_results) (c : Config) (s : t) : t :=
  {| name := name s; dump_results := dump_results s;
     results := PyDict.set id r (results s);
     configs := PyDict.set id c (configs s) |}.





Section Queries.
(** [config.alias(as_string=True)], the rendering of a Configuration as
    one string, is computed by code that is not at hand. *)
Variable alias_string : Config -> string.







End Queries.

(** [item in _config.items()] *)
Definition has_item (d : list (string * pyval)) (item : string * pyval) : bool :=
  bool_decide (PyDict.get item.1 d = Some item.2).

(** [all(item in _config.items() for item in config.items())] *)
Definition contains_all (d filter_items : list (string * pyval)) : bool :=
  forallb (has_item d) filter_items.

(** Lines 520-540 of [filter_ids_by_configs]: the filter by a partial config
    or alias mapping and the keyword filters. *)
Definition filter_by_mapping (config alias : option (list (string * pyval)))
  (kwargs : list (string * pyval)) (s : t) : list string :=
  let '(config, alias) :=
    if Nat.ltb 0 (length kwargs)
    then match config, alias with
         | Some c, _ => (Some (PyDict.merge c kwargs), alias)
         | None, Some a => (None, Some (PyDict.merge a kwargs))
         | None, None => (Some kwargs, None)
         end
    else (config, alias) in
  match config, alias with
  | None, None => PyDict.keys (configs s)
  | Some c, _ =>
      omap (fun ic : string * Config =>
              if contains_all (config_full ic.2) c then Some ic.1 else None)
           (configs s)
  | None, Some a =>
      omap (fun ic : string * Config =>
              if contains_all (config_alias ic.2) a then Some ic.1 else None)
           (configs s)
  end.

(** [sum([domain is not None, config is not None, alias is not None])] *)
Definition is_not_None {A : Type} (x : option A) : nat :=
  match x with Some _ => 1 | None => 0 end.

Definition count_given {A B C : Type} (domain : option A) (config : option B)
  (alias : option C) : nat :=
  is_not_None domain + is_not_None config + is_not_None alias.

(** [filter_ids_by_configs(config, alias, domain, **kwargs)]: the list of ids
    (or the error raised) and the store afterwards.  [domain] stands for the
    configurations [domain.iterator()] yields.  The call the function makes
    to itself passes a config only, so it is the filter by that mapping. *)
Definition filter_ids_by_configs (config alias : option (list (string * pyval)))
  (domain : option (list Config)) (kwargs : list (string * pyval)) (s : t)
  : (exn + list string) * t :=
  if Nat.ltb 1 (count_given domain config alias)
  then (inl (ValueError "Only one of `config`, `alias` and `domain` can be not None"), s)
  else match domain with
       | Some dom =>
           (inr (dom ≫= (fun c => filter_by_mapping (Some (config_full c)) None [] s)), s)
       | None => (inr (filter_by_mapping config alias kwargs s), s)
       end.




(** The results of one experiment are dictionaries at both levels. *)
Definition results_ok (r : experiment_results) : Prop :=
  PyDict.wf r /\ forall nm sr, (nm, sr) ∈ r -> PyDict.wf sr.

(** What holds of a store that was filled by [put]: its mappings are
    dictionaries, and every id with results has a config. *)
Definition store_ok (s : t) : Prop :=
  PyDict.wf (results s) /\
  (forall id r, (id, r) ∈ results s -> results_ok r) /\
  PyDict.wf (configs s) /\
  (forall id, id ∈ PyDict.keys (results s) -> id ∈ PyDict.keys (configs s)).

End ResearchResults.

(** ** Research: the folder of a research and the start of [run] *)

Module Research.

(** The names bound in the module research.py: what its import statements
    (lines 1-21) bring in and the classes it defines. *)
Definition module_globals : list string :=
  ["os"; "datetime"; "csv"; "copy"; "deepcopy"; "itertools"; "subprocess";
   "re"; "functools"; "mp"; "dill"; "glob"; "OrderedDict"; "np"; "pd";
   "Config"; "Domain"; "Distributor"; "Experiment"; "Executor";
   "create_logger"; "to_list";
   "Research"; "DynamicQueue"; "ResearchMonitor"; "ResearchResults"].

(** Evaluating a global name of the module: a name that is not bound raises
    NameError. *)
Definition resolve_global (nm : string) : exn + unit :=
  if bool_decide (nm ∈ module_globals) then inr tt else inl (NameError nm).

(** The Research object with the part of the world [run] acts on: the paths
    that exist in the file system and the warnings that were issued. *)
Record t : Type := mkResearch {
  name : string;
  domain : Domain;
  dump_results : bool;
  env_ : list (string * string);
  fs : gset string;
  warnings_issued : list string
}.

Definition set_fs (f : gset string) (r : t) : t :=
  {| name := name r; domain := domain r; dump_results := dump_results r;
     env_ := env_ r; fs := f; warnings_issued := warnings_issued r |}.

Definition set_env (e : list (string * string)) (r : t) : t :=
  {| name := name r; domain := domain r; dump_results := dump_results r;
     env_ := e; fs := fs r; warnings_issued := warnings_issued r |}.

Definition set_domain (d : Domain) (r : t) : t :=
  {| name := name r; domain := d; dump_results := dump_results r;
     env_ := env_ r; fs := fs r; warnings_issued := warnings_issued r |}.

(** A computation that acts on the Research object and may raise. *)
Definition M (A : Type) : Type := t -> (exn + A) * t.

Definition ret {A : Type} (x : A) : M A := fun r => (inr x, r).

Definition raise {A : Type} (e : exn) : M A := fun r => (inl e, r).

Definition bind {A B : Type} (m : M A) (k : A -> M B) : M B :=
  fun r => match m r with
           | (inl e, r') => (inl e, r')
           | (inr x, r') => k x r'
           end.

Notation "x <- m ;; k" := (bind m (fun x => k))
  (at level 90, m at level 80, right associativity).
Notation "m ;;; k" := (bind m (fun _ => k))
  (at level 90, right associativity).

Definition lift {A : Type} (x : exn + A) : M A := fun r => (x, r).

(** [os.path.join(a, b)] for a relative [b] *)
Definition path_join (a b : string) : string := a +:+ "/" +:+ b.

(** [os.path.exists(p)] *)
Definition path_exists (p : string) : M bool :=
  fun r => (inr (bool_decide (p ∈ fs r)), r).

(** [os.makedirs(p)]: the directory is created; the file system is taken to
    refuse nothing but a path that exists. *)
Definition makedirs (p : string) : M unit :=
  fun r => if bool_decide (p ∈ fs r)
           then (inl (OtherError "FileExistsError"), r)
           else (inr tt, set_fs ({[p]} ∪ fs r) r).

(** [for x in xs: body(x)] *)
Fixpoint for_each {A : Type} (xs : list A) (body : A -> M unit) : M unit :=
  match xs with
  | [] => ret tt
  | x :: rest => body x ;;; for_each rest body
  end.

Definition subfolders : list string :=
  ["configs"; "description"; "env"; "experiments"].

(** [create_research_folder()] *)
Definition create_research_folder : M unit :=
  fun r =>
    (ex <- path_exists (name r) ;;
     if negb ex
     then makedirs (name r) ;;;
          for_each subfolders (fun subfolder =>
            let config_path := path_join (name r) subfolder in
            ex' <- path_exists config_path ;;
            if negb ex' then makedirs config_path else ret tt)
     else raise (ValueError ("Research with name '" +:+ name r +:+ "' already exists"))) r.


(** A computation leaves the domain and the warnings issued as they were. *)
Definition keeps_domain {A : Type} (m : M A) : Prop :=
  forall r res r',
    m r = (res, r') ->
    domain r' = domain r /\ warnings_issued r' = warnings_issued r.

(** The arguments of [run] that decide what happens up to the start of the
    distributor. *)
Record run_args : Type := mkArgs {
  arg_name : option string;
  arg_workers : nat + list Config;
  arg_branches : nat + list Config;
  arg_dump_results : bool;
  arg_parallel : bool
}.

(** [name or self.name]: the name of the research once [run] has stored its
    arguments. *)
Definition stored_name (a : run_args) (r : t) : string :=
  match arg_name a with
  | Some n => if bool_decide (n = "") then name r else n
  | None => name r
  end.

Section Run.
(** What [run] calls and is not modelled here: [get_devices] (lines
    131-167), a computation on its arguments alone; and, from code that is
    not at hand, [Experiment.dump], which writes to the folder of the
    research, the shell commands of [attach_env_meta],
    [Domain.set_iter_params], and everything from [create_logger] on (lines
    256-269). *)
Variable get_devices : run_args -> exn + list (list (list string)).
Variable experiment_dump : gset string -> exn + gset string.
Variable run_command : string -> exn + string.
Variable set_iter_params : Domain -> Domain.
Variable distribute : M unit.

(** [attach_env_meta()] with no extra commands *)
Definition attach_env_meta : M unit :=
  let commands :=
    [("commit", "git log --name-status HEAD^..HEAD");
     ("diff", "git diff");
     ("status", "git status")] in
  for_each commands (fun fc : string * string =>
    result <- lift (run_command fc.2) ;;
    fun r =>
      (if dump_results r
       then (ex <- path_exists (path_join (name r) "env") ;;
             (if negb ex then makedirs (path_join (name r) "env") else ret tt) ;;;
             fun r' => (inr tt, set_fs ({[path_join (path_join (name r') "env")
                                                    (fc.1 +:+ ".txt")]} ∪ fs r') r'))
       else fun r' => (inr tt, set_env (PyDict.set fc.1 result (env_ r')) r')) r).

(** [warnings.warn(msg, stacklevel=2)]: the name [warnings] is looked up
    among the globals of the module first. *)
Definition warnings_warn (msg : string) : M unit :=
  lift (resolve_global "warnings") ;;;
  fun r => (inr tt,
            {| name := name r; domain := domain r; dump_results := dump_results r;
               env_ := env_ r; fs := fs r;
               warnings_issued := warnings_issued r ++ [msg] |}).

(** The condition of line 252. *)
Definition unbounded (d : Domain) : bool :=
  match dom_size d with
  | None => negb (dom_update_func d) ||
            match dom_update_each d with UpdateLast => true | _ => false end
  | Some _ => false
  end.

(** Lines 252-254 of [run] *)
Definition warn_if_unbounded : M unit :=
  fun r =>
    (if unbounded (domain r)
     then warnings_warn
            "Research will be infinite because has infinite domain and hasn't domain updating"
     else ret tt) r.

(** Lines 223-239 of [run]: the arguments are stored in the object. *)
Definition run_store_args (a : run_args) : M unit :=
  (if arg_parallel a then ret tt
   else match arg_workers a with
        | inl _ => ret tt
        | inr [] => raise (OtherError "IndexError")
        | inr (_ :: _) => ret tt
        end) ;;;
  _ <- lift (get_devices a) ;;
  fun r => (inr tt,
            {| name := stored_name a r;
               domain := domain r; dump_results := arg_dump_results a;
               env_ := env_ r; fs := fs r;
               warnings_issued := warnings_issued r |}).

(** Line 242: [self.experiment = self.experiment.dump()] *)
Definition dump_experiment : M unit :=
  fun r => match experiment_dump (fs r) with
           | inl e => (inl e, r)
           | inr f => (inr tt, set_fs f r)
           end.

(** Lines 240-241 of [run] *)
Definition create_folder_if_dumping : M unit :=
  fun r => (if dump_results r then create_research_folder else ret tt) r.

(** Lines 242-248 of [run]; the two lists of empty configs of lines
    245-248 play no part in what follows here. *)
Definition run_prepare : M unit :=
  (fun r => (if dump_results r then dump_experiment else ret tt) r) ;;;
  attach_env_meta.

(** Lines 223-248 of [run] *)
Definition run_setup (a : run_args) : M unit :=
  run_store_args a ;;; create_folder_if_dumping ;;; run_prepare.

(** Line 250 of [run] *)
Definition set_domain_iter_params : M unit :=
  fun r => (inr tt, set_domain (set_iter_params (domain r)) r).

(** Lines 250-269 of [run] *)
Definition run_finish : M unit :=
  set_domain_iter_params ;;; warn_if_unbounded ;;; distribute.

(** [run(name, workers, branches, ..., dump_results, parallel, ...)] *)
Definition run (a : run_args) : M unit :=
  run_setup a ;;; run_finish.
End Run.

End Research.

(** ** Small instances, used in the examples below *)

Module Examples.

(** The configuration [{x: v}]. *)
Definition cfg (v : Z) : Config := [mkItem "x" (VInt v) "x" (VInt v)].

(** A domain of five configurations. *)
Definition domain5 : Domain := domain_of_list (map cfg [10; 20; 30; 40; 50]%Z).

(** A queue over [domain5] with two branches. *)
Definition queue5 : DynamicQueue.t := DynamicQueue.init domain5 2.

(** [queue5] after [next_tasks(2)]: two tasks wait in the queue. *)
Definition queue5_two_waiting : DynamicQueue.t :=
  snd (DynamicQueue.next_tasks 2 queue5).

(** A store with one experiment, whose config has the auxiliary key
    [repetition]. *)
Definition store1 : ResearchResults.t :=
  ResearchResults.put "a" [("sum", [(0, VInt 45)])]
    [mkItem "x" (VInt 2) "x" (VInt 2);
     mkItem "repetition" (VInt 0) "repetition" (VInt 0)]
    (ResearchResults.init "research" false).



(** A domain of unknown size with no update function: the configurations
    [{x: 0}], [{x: 1}], ... without end. *)
Definition endless_domain : Domain :=
  {| dom_size := None; dom_update_func := false; dom_update_each := UpdateLast;
     dom_gen := fun i => Some (cfg (Z.of_nat i)); dom_pos := 0 |}.

(** A Research named "research" over a domain, with nothing on disk. *)
Definition research_over (d : Domain) : Research.t :=
  {| Research.name := "research"; Research.domain := d;
     Research.dump_results := true; Research.env_ := [];
     Research.fs := ∅; Research.warnings_issued := [] |}.



Definition run_no_dump : Research.run_args :=
  {| Research.arg_name := None; Research.arg_workers := inl 1;
     Research.arg_branches := inl 1; Research.arg_dump_results := false;
     Research.arg_parallel := true |}.

(** Collaborators that succeed and do nothing more. *)
Definition devices_none (a : Research.run_args) : exn + list (list (list string)) :=
  inr [[[]]].
Definition dump_nothing (f : gset string) : exn + gset string := inr f.
Definition command_silent (c : string) : exn + string := inr "".
Definition iter_params_kept (d : Domain) : Domain := d.
Definition distribute_nothing : Research.M unit := Research.ret tt.

End Examples.

(** ** The life of a DynamicQueue: what was put and what was taken *)

Module QueueLife.
Import DynamicQueue.

(** The queue together with the items the consumers have taken from it so
    far, in the order they took them. *)
Record t : Type := mkLife {
  current : DynamicQueue.t;
  taken : list (option task)
}.

(** What the producer and the consumers do. *)
Inductive event : Type :=
  | NextTasks (n_tasks : nat)
  | StopWorkers (n_workers : nat)
  | Join
  | Get.

Definition with_queue (q : DynamicQueue.t) (l : t) : t :=
  {| current := q; taken := taken l |}.

(** A consumer calls [get] and then [task_done]. *)
Definition get (l : t) : option t :=
  match jq_get (queue (current l)) with
  | None => None
  | Some (x, jq) =>
      match jq_task_done jq with
      | None => None
      | Some jq' =>
          Some {| current :=
                    {| domain := domain (current l);
                       n_branches := n_branches (current l);
                       queue := jq';
                       withdrawn_tasks := withdrawn_tasks (current l);
                       finished_tasks := finished_tasks (current l) |};
                  taken := taken l ++ [x] |}
      end
  end.

Definition step (e : event) (l : t) : option t :=
  match e with
  | NextTasks n => Some (with_queue (snd (next_tasks n (current l))) l)
  | StopWorkers n => Some (with_queue (stop_workers n (current l)) l)
  | Join => (fun q => with_queue q l) <$> join (current l)
  | Get => get l
  end.

Fixpoint run (events : list event) (l : t) : option t :=
  match events with
  | [] => Some l
  | e :: rest => match step e l with Some l' => run rest l' | None => None end
  end.

(** A new queue, from which nothing was taken. *)
Definition start (d : Domain) (b : nat) : t :=
  {| current := init d b; taken := [] |}.

End QueueLife.

(** ** ResearchMonitor *)

Module ResearchMonitor.

(** [str(x)] for the values of a signal. *)
Definition py_str (v : pyval) : string :=
  match v with
  | VNone => "None"
  | VInt z => pretty z
  | VStr s => s
  end.

Definition COLUMNS : list string :=
  ["time"; "task_idx"; "id"; "it"; "name"; "status"; "exception"; "worker";
   "pid"; "worker_pid"].

(** A signal is a dictionary; a row of the log is a list of cells. *)
Definition signal : Type := list (string * pyval).
Definition csv_row : Type := list string.

(** The monitor with the part of the world it acts on: its queue (a [None]
    item tells the listener to stop), the files by name, each a list of
    rows, and the number of listener processes started. *)
Record t : Type := mkMonitor {
  queue : list (option signal);
  path : string;
  dump : bool;
  files : gmap string (list csv_row);
  listeners : nat
}.

(** [ResearchMonitor(path)] in a world with the files [fs]. *)
Definition init (p : string) (fs : gmap string (list csv_row)) : t :=
  {| queue := []; path := p; dump := false; files := fs; listeners := 0 |}.

(** Modelled from the spec: the Experiment and Executor classes
    (research/experiment.py) are not part of the sources at hand.  Of an
    experiment the monitor reads the id, the iteration, the exception, the
    pid of its executor and the worker of its executor (which may be absent),
    of a worker its index and pid. *)
Record Worker : Type := mkWorker {
  worker_index : pyval;
  worker_pid : pyval
}.

Record Experiment : Type := mkExperiment {
  exp_id : pyval;
  exp_iteration : pyval;
  exp_exception_class : pyval;
  exp_executor_pid : pyval;
  exp_executor_worker : option Worker
}.

Definition put (x : option signal) (m : t) : t :=
  {| queue := queue m ++ [x]; path := path m; dump := dump m;
     files := files m; listeners := listeners m |}.

(** [send(experiment, worker, **kwargs)]; [now] is
    [str(datetime.datetime.now())]. *)
Definition make_signal (now : string) (experiment : option Experiment)
  (worker : option Worker) (kwargs : signal) : signal :=
  let sig := PyDict.merge [("time", VStr now)] kwargs in
  let sig :=
    match experiment with
    | Some e => PyDict.merge sig [("id", exp_id e); ("pid", exp_executor_pid e)]
    | None => sig
    end in
  match worker with
  | Some w => PyDict.merge sig [("worker", worker_index w);
                                ("worker_pid", worker_pid w)]
  | None => sig
  end.

Definition send (now : string) (experiment : option Experiment)
  (worker : option Worker) (kwargs : signal) (m : t) : t :=
  put (Some (make_signal now experiment worker kwargs)) m.

(** The signals of the four events of an execution, as [send] makes them. *)
Definition start_signal (now nm : string) (e : Experiment) : signal :=
  make_signal now (Some e) None
    [("name", VStr nm); ("it", exp_iteration e); ("status", VStr "start")].

Definition finish_signal (now nm : string) (e : Experiment) : signal :=
  make_signal now (Some e) (exp_executor_worker e)
    [("name", VStr nm); ("it", exp_iteration e); ("status", VStr "success")].

Definition fail_signal (now nm : string) (e : Experiment) : signal :=
  make_signal now (Some e) (exp_executor_worker e)
    [("name", VStr nm); ("it", exp_iteration e); ("status", VStr "error");
     ("exception", exp_exception_class e)].

Definition stop_iteration_signal (now nm : string) (e : Experiment) : signal :=
  make_signal now (Some e) (exp_executor_worker e)
    [("name", VStr nm); ("it", exp_iteration e); ("status", VStr "stop_iteration")].

Definition start_execution (now nm : string) (e : Experiment) (m : t) : t :=
  put (Some (start_signal now nm e)) m.

Definition finish_execution (now nm : string) (e : Experiment) (m : t) : t :=
  put (Some (finish_signal now nm e)) m.

Definition fail_execution (now nm : string) (e : Experiment) (m : t) : t :=
  put (Some (fail_signal now nm e)) m.

Definition stop_iteration (now nm : string) (e : Experiment) (m : t) : t :=
  put (Some (stop_iteration_signal now nm e)) m.

(** [[str(signal.get(column, '')) for column in self.COLUMNS]] *)
Definition row_of (sig : signal) : csv_row :=
  map (fun column =>
         match PyDict.get column sig with
         | Some v => py_str v
         | None => ""
         end) COLUMNS.

(** [os.path.join(self.path, 'monitor.csv')] *)
Definition log_name (m : t) : string := path m +:+ "/" +:+ "monitor.csv".

(** [open(filename, 'a')] and [writer.writerow(row)]: the file is created
    if it is missing. *)
Definition append_row (filename : string) (row : csv_row)
  (fs : gmap string (list csv_row)) : gmap string (list csv_row) :=
  <[filename := default [] (fs !! filename) ++ [row]]> fs.

(** The loop of [listener] on the items a queue holds.  The result says
    whether the loop ended (it met [None]); otherwise the queue ran empty and
    the listener waits in [queue.get()]. *)
Fixpoint listen (dmp : bool) (filename : string) (items : list (option signal))
  (fs : gmap string (list csv_row))
  : list (option signal) * gmap string (list csv_row) * bool :=
  match items with
  | [] => ([], fs, false)
  | None :: rest => (rest, fs, true)
  | Some sig :: rest =>
      listen dmp filename rest
        (if dmp then append_row filename (row_of sig) fs else fs)
  end.

(** [listener()] *)
Definition listener (m : t) : t * bool :=
  let '(rest, fs, ended) := listen (dump m) (log_name m) (queue m) (files m) in
  ({| queue := rest; path := path m; dump := dump m; files := fs;
      listeners := listeners m |}, ended).

(** [start(dump)] *)
Definition start (dmp : bool) (m : t) : t :=
  {| queue := queue m; path := path m; dump := dmp;
     files := if dmp
              then match files m !! log_name m with
                   | Some _ => files m
                   | None => <[log_name m := [COLUMNS]]> (files m)
                   end
              else files m;
     listeners := S (listeners m) |}.

(** [stop()] *)
Definition stop (m : t) : t := put None m.

End ResearchMonitor.

(** ** ResearchResults: loading the files of one result *)

Module ResultsLoad.

(** The files of a folder [experiments/<id>/results/<name>]: each is named by
    the iteration at which it was dumped and holds a mapping from iterations
    to values.  The order is the one [glob] lists them in. *)
Definition directory : Type := list (nat * ResearchResults.series).

(** [dumped_iteration[np.argwhere(dumped_iteration >= it)[0, 0]]]: the first
    entry of the sorted array that is not below [it]; IndexError when there
    is none. *)
Definition first_not_below (dumped_iteration : list nat) (it : nat) : exn + nat :=
  match list_find (fun x => it <= x) dumped_iteration with
  | Some (_, x) => inr x
  | None => inl (OtherError "IndexError")
  end.

(** [for it in iteration: ...; files_to_load[_it] = os.path.join(path, str(_it))] *)
Fixpoint select_files (path : string) (dumped_iteration iteration : list nat)
  (files_to_load : list (nat * string)) : exn + list (nat * string) :=
  match iteration with
  | [] => inr files_to_load
  | it :: rest =>
      match first_not_below dumped_iteration it with
      | inl e => inl e
      | inr _it =>
          select_files path dumped_iteration rest
            (PyDict.set _it (path +:+ "/" +:+ pretty _it) files_to_load)
      end
  end.

(** [iteration is None or it in iteration] *)
Definition asked_for (iteration : option (list nat)) (it : nat) : bool :=
  match iteration with
  | None => true
  | Some its => bool_decide (it ∈ its)
  end.

(** [for it in values: if iteration is None or it in iteration:
       results[it] = values[it]] *)
Definition take_values (iteration : option (list nat))
  (values results : ResearchResults.series) : ResearchResults.series :=
  foldl (fun res it =>
           if asked_for iteration it
           then match PyDict.get it values with
                | Some v => PyDict.set it v res
                | None => res
                end
           else res)
        results (PyDict.keys values).

(** [for filename in files_to_load.values(): ...]: the files are opened in
    the order given; a file is found by the number that is its name. *)
Fixpoint load_files (dir : directory) (iteration : option (list nat))
  (files : list (nat * string)) (results : ResearchResults.series)
  : exn + ResearchResults.series :=
  match files with
  | [] => inr results
  | f :: rest =>
      match PyDict.get f.1 dir with
      | None => inl (OtherError "FileNotFoundError")
      | Some values => load_files dir iteration rest (take_values iteration values results)
      end
  end.

(** [sorted(files_to_load.items())]; the keys of a dictionary differ, so the
    order is the order of the keys. *)
Definition key_le (a b : nat * string) : Prop := a.1 <= b.1.

#[global] Instance key_le_dec : RelDecision key_le.
Proof. intros a b. unfold key_le. apply _. Defined.

Definition sorted_items (files_to_load : list (nat * string)) : list (nat * string) :=
  merge_sort key_le files_to_load.

(** [load_iteration_files(path, iteration)] on a folder with the files [dir]. *)
Definition load_iteration_files (path : string) (dir : directory)
  (iteration : option (list nat)) : exn + ResearchResults.series :=
  let files_to_load :=
    match iteration with
    | None =>
        inr (PyDict.merge []
               (map (fun f : nat * ResearchResults.series =>
                       (f.1, path +:+ "/" +:+ pretty f.1)) dir))
    | Some its =>
        select_files path (merge_sort le (PyDict.keys dir)) its []
    end in
  match files_to_load with
  | inl e => inl e
  | inr files => load_files dir iteration (sorted_items files) []
  end.

End ResultsLoad.

(** ** Small instances for the monitor *)

Module MonitorExamples.
Import ResearchMonitor.

Definition experiment1 : Experiment :=
  {| exp_id := VStr "a"; exp_iteration := VInt 0;
     exp_exception_class := VStr "<class 'ValueError'>";
     exp_executor_pid := VInt 4242;
     exp_executor_worker := Some {| worker_index := VInt 0; worker_pid := VInt 77 |} |}.

Definition signals1 : list signal :=
  [start_signal "t0" "sum" experiment1; finish_signal "t1" "sum" experiment1].

(** A monitor that dumps, with two signals and the stop item in its queue,
    and one more signal behind the stop item. *)
Definition monitor1 : t :=
  {| queue := map Some signals1 ++ None :: [Some (fail_signal "t2" "sum" experiment1)];
     path := "research"; dump := true; files := ∅; listeners := 1 |}.

(** The same without the stop item. *)
Definition monitor2 : t :=
  {| queue := map Some signals1;
     path := "research"; dump := true; files := ∅; listeners := 1 |}.

End MonitorExamples.

(** * Properties *)

(** ** Facts about dictionaries *)

Module PyDictFacts.
Import PyDict.
Section Facts.
Context {K V : Type} `{EqDecision K}.
Implicit Types (k : K) (v : V) (d : list (K * V)).

Lemma keys_set k v d :
  keys (set k v d) = if decide (k ∈ keys d) then keys d else keys d ++ [k].
Proof.
  induction d as [|[k' v'] d IH].
  - simpl. destruct (decide (k ∈ @keys K V [])) as [Hin|]; [| done].
    by apply elem_of_nil in Hin.
  - simpl set. destruct (decide (k = k')) as [->|Hne].
    + destruct (decide (k' ∈ keys ((k', v') :: d))) as [|Hn]; [done |].
      exfalso. apply Hn. left.
    + change (keys ((k', v') :: set k v d)) with (k' :: keys (set k v d)).
      rewrite IH. change (keys ((k', v') :: d)) with (k' :: keys d).
      destruct (decide (k ∈ keys d)) as [Hin|Hnin];
        destruct (decide (k ∈ k' :: keys d)) as [Hin'|Hnin']; try done.
      * exfalso. apply Hnin'. by right.
      * apply elem_of_cons in Hin' as [?|?]; done.
Qed.

Lemma wf_nil : wf (@nil (K * V)).
Proof. constructor. Qed.

Lemma wf_set k v d : wf d -> wf (set k v d).
Proof.
  unfold wf. intros Hd. rewrite keys_set.
  destruct (decide (k ∈ keys d)); [done |].
  apply NoDup_app. split; [done |]. split.
  - intros x Hx Hx'. apply list_elem_of_singleton in Hx'. by subst.
  - apply NoDup_singleton.
Qed.

Lemma get_set_eq k v d : get k (set k v d) = Some v.
Proof.
  induction d as [|[k' v'] d IH]; simpl.
  - by rewrite decide_True.
  - destruct (decide (k = k')) as [->|Hne]; simpl.
    + by rewrite decide_True.
    + by rewrite decide_False.
Qed.

Lemma get_set_ne k k' v d : k' <> k -> get k' (set k v d) = get k' d.
Proof.
  intros Hne. induction d as [|[k0 v0] d IH]; simpl.
  - by rewrite decide_False.
  - destruct (decide (k = k0)) as [->|Hne0]; simpl.
    + by rewrite !decide_False.
    + destruct (decide (k' = k0)); done.
Qed.

Lemma get_set k k' v d :
  get k' (set k v d) = if decide (k' = k) then Some v else get k' d.
Proof.
  destruct (decide (k' = k)) as [->|Hne];
    [apply get_set_eq | by apply get_set_ne].
Qed.


Lemma get_Some_elem k v d : get k d = Some v -> (k, v) ∈ d.
Proof.
  induction d as [|[k' v'] d IH]; simpl; [done |].
  destruct (decide (k = k')) as [->|Hne].
  - intros [= ->]. left.
  - intros H. right. by apply IH.
Qed.

Lemma elem_get k v d : wf d -> (k, v) ∈ d -> get k d = Some v.
Proof.
  unfold wf. induction d as [|[k' v'] d IH]; simpl.
  - intros _ H. by apply elem_of_nil in H.
  - intros Hnd Hin. apply NoDup_cons in Hnd as [Hk' Hnd].
    apply elem_of_cons in Hin as [[= -> ->]|Hin].
    + by rewrite decide_True.
    + destruct (decide (k = k')) as [->|Hne]; [| by apply IH].
      exfalso. apply Hk'. change k' with ((k', v).1).
      by apply list_elem_of_fmap_2.
Qed.

Lemma get_None_keys k d : get k d = None <-> k ∉ keys d.
Proof.
  induction d as [|[k' v'] d IH]; simpl.
  - split; [intros _; apply not_elem_of_nil | done].
  - destruct (decide (k = k')) as [->|Hne].
    + split; [done |]. intros H. exfalso. apply H. left.
    + rewrite IH. split.
      * intros H Hin. apply elem_of_cons in Hin as [?|?]; done.
      * intros H Hin. apply H. by right.
Qed.

Lemma get_merge k d1 d2 :
  get k (merge d1 d2) =
    match get k (reverse d2) with Some v => Some v | None => get k d1 end.
Proof.
  unfold merge. revert d1.
  induction d2 as [|[k2 v2] d2 IH] using rev_ind; intros d1; [done |].
  rewrite foldl_app, reverse_app. simpl.
  rewrite get_set. destruct (decide (k = k2)) as [->|Hne]; [done |].
  apply IH.
Qed.

Lemma get_reverse k d : wf d -> get k (reverse d) = get k d.
Proof.
  intros Hwf. destruct (get k d) as [v|] eqn:Hg.
  - apply elem_get.
    + unfold wf, keys. rewrite fmap_reverse, reverse_Permutation. exact Hwf.
    + apply elem_of_reverse. by apply get_Some_elem.
  - apply get_None_keys. apply get_None_keys in Hg.
    unfold keys in *. rewrite fmap_reverse, elem_of_reverse. done.
Qed.

Lemma wf_merge d1 d2 : wf d1 -> wf (merge d1 d2).
Proof.
  unfold merge. revert d1. induction d2 as [|[k v] d2 IH]; intros d1 Hd1; simpl.
  - done.
  - apply IH. by apply wf_set.
Qed.

Lemma merge_nil_r d : merge d [] = d.
Proof. done. Qed.

Lemma elem_iff_get k v d : wf d -> ((k, v) ∈ d <-> get k d = Some v).
Proof. intros Hd. split; [by apply elem_get | apply get_Some_elem]. Qed.


Lemma wf_cons_inv k v d : wf ((k, v) :: d) -> (k ∉ keys d) /\ wf d.
Proof. unfold wf, keys. simpl. apply NoDup_cons. Qed.
End Facts.
End PyDictFacts.

(** ** Facts about domains *)

Section DomainFacts.
Implicit Types (d : Domain) (g : nat -> option Config).

Lemma dom_skip_0 d : dom_skip 0 d = d.
Proof. destruct d; unfold dom_skip; simpl. by rewrite Nat.add_0_r. Qed.

Lemma dom_skip_skip a b d : dom_skip b (dom_skip a d) = dom_skip (a + b) d.
Proof. unfold dom_skip; simpl. by rewrite Nat.add_assoc. Qed.

Lemma upcoming_length_le g p k : length (upcoming g p k) <= k.
Proof.
  revert p. induction k as [|k IH]; intros p; simpl; [done |].
  destruct (g p); simpl; [| lia]. specialize (IH (S p)). lia.
Qed.


Lemma upcoming_exhausted g p k :
  length (upcoming g p k) < k -> g (p + length (upcoming g p k)) = None.
Proof.
  revert p. induction k as [|k IH]; intros p; simpl; [lia |].
  destruct (g p) as [c|] eqn:Hg; simpl.
  - intros Hlt. replace (p + S (length (upcoming g (S p) k)))
      with (S p + length (upcoming g (S p) k)) by lia.
    apply IH. lia.
  - intros _. by rewrite Nat.add_0_r.
Qed.

Lemma upcoming_length_remains g p k r :
  (forall i, i < r -> is_Some (g (p + i))) -> g (p + r) = None ->
  length (upcoming g p k) = Nat.min r k.
Proof.
  revert p r. induction k as [|k IH]; intros p r Hsome Hnone; simpl; [lia |].
  destruct r as [|r].
  - rewrite Nat.add_0_r in Hnone. by rewrite Hnone.
  - destruct (Hsome 0 ltac:(lia)) as [c Hc]. rewrite Nat.add_0_r in Hc.
    rewrite Hc. simpl. f_equal. apply IH.
    + intros i Hi. replace (S p + i) with (p + S i) by lia. apply Hsome. lia.
    + by replace (S p + r) with (p + S r) by lia.
Qed.

Lemma upcoming_min g p k r :
  (forall i, i < r -> is_Some (g (p + i))) -> g (p + r) = None ->
  upcoming g p k = upcoming g p (Nat.min r k).
Proof.
  revert p r. induction k as [|k IH]; intros p r Hsome Hnone.
  - by rewrite Nat.min_0_r.
  - destruct r as [|r]; simpl.
    + rewrite Nat.add_0_r in Hnone. by rewrite Hnone.
    + destruct (Hsome 0 ltac:(lia)) as [c Hc]. rewrite Nat.add_0_r in Hc.
      rewrite Hc. f_equal. apply IH.
      * intros i Hi. replace (S p + i) with (p + S i) by lia. apply Hsome. lia.
      * by replace (S p + r) with (p + S r) by lia.
Qed.

Lemma upcoming_app g p a b :
  upcoming g p (a + b) =
    upcoming g p a ++
    (if Nat.eqb (length (upcoming g p a)) a then upcoming g (p + a) b else []).
Proof.
  revert p. induction a as [|a IH]; intros p; simpl.
  - by rewrite Nat.add_0_r.
  - destruct (g p) as [c|]; simpl; [| done].
    rewrite IH. by replace (S p + a) with (p + S a) by lia.
Qed.

Lemma remains_unique d r r' : remains d r -> remains d r' -> r = r'.
Proof.
  intros [Hs Hn] [Hs' Hn'].
  destruct (Nat.lt_trichotomy r r') as [Hlt|[->|Hlt]]; [| done |].
  - destruct (Hs' r Hlt) as [c Hc]. congruence.
  - destruct (Hs r' Hlt) as [c Hc]. congruence.
Qed.

Lemma remains_skip d r k : remains d r -> k <= r -> remains (dom_skip k d) (r - k).
Proof.
  intros [Hs Hn] Hk. split; simpl.
  - intros i Hi. replace (dom_pos d + k + i) with (dom_pos d + (k + i)) by lia.
    apply Hs. lia.
  - by replace (dom_pos d + k + (r - k)) with (dom_pos d + r) by lia.
Qed.

Lemma remains_domain_of_list (l : list Config) :
  remains (domain_of_list l) (length l).
Proof.
  split; simpl.
  - intros i Hi. by apply lookup_lt_is_Some_2.
  - by apply lookup_ge_None_2.
Qed.
End DomainFacts.

(** ** DynamicQueue: drawing tasks *)

Module QueueFacts.
Import DynamicQueue.

Lemma draw_batch_spec b d branch_tasks :
  let new := upcoming (dom_gen d) (dom_pos d) b in
  draw_batch d b branch_tasks =
    (branch_tasks ++ new, dom_skip (length new) d, Nat.ltb (length new) b).
Proof.
  revert d branch_tasks. induction b as [|b IH]; intros d acc; simpl.
  - by rewrite app_nil_r, dom_skip_0.
  - unfold dom_next. destruct (dom_gen d (dom_pos d)) as [c|] eqn:Hg.
    + rewrite IH. simpl. rewrite Nat.add_1_r, <- app_assoc. simpl.
      rewrite dom_skip_skip. done.
    + simpl. by rewrite app_nil_r, dom_skip_0.
Qed.

(** What the outer loop of [next_tasks] appends to [configs]: full batches,
    then at most one batch that was begun and cut by the exhaustion of the
    domain; together they are the next [n * b] configurations of the domain,
    or what is left of it. *)
Lemma draw_tasks_spec b n d configs :
  let drawn := upcoming (dom_gen d) (dom_pos d) (n * b) in
  exists full partial,
    draw_tasks d b n configs =
      (configs ++ full ++ partial, dom_skip (length drawn) d,
       Nat.ltb 0 (length partial)) /\
    concat (full ++ partial) = drawn /\
    Forall (fun batch => length batch = b) full /\
    length (full ++ partial) <= n /\
    (partial = [] \/
     exists batch, partial = [batch] /\ 0 < length batch < b /\
                   length drawn < n * b).
Proof.
  revert d configs. induction n as [|n IH]; intros d configs; simpl.
  - exists [], []. simpl. rewrite app_nil_r, dom_skip_0. auto 10.
  - rewrite draw_batch_spec. simpl.
    pose proof (upcoming_length_le (dom_gen d) (dom_pos d) b) as Hle.
    rewrite upcoming_app.
    destruct (Nat.ltb_spec (length (upcoming (dom_gen d) (dom_pos d) b)) b)
      as [Hlt|Hge].
    + (* the domain is exhausted within this batch *)
      replace (Nat.eqb _ b) with false by (symmetry; apply Nat.eqb_neq; lia).
      rewrite app_nil_r.
      destruct (Nat.ltb_spec 0 (length (upcoming (dom_gen d) (dom_pos d) b)))
        as [Hpos|Hzero].
      * exists [], [upcoming (dom_gen d) (dom_pos d) b]. simpl.
        rewrite app_nil_r. repeat split; auto; try lia.
        right. eexists. repeat split; eauto; lia.
      * exists [], []. simpl. rewrite app_nil_r.
        assert (upcoming (dom_gen d) (dom_pos d) b = []) as ->
          by (apply length_zero_iff_nil; lia).
        simpl. rewrite dom_skip_0. repeat split; auto; lia.
    + (* a full batch *)
      assert (length (upcoming (dom_gen d) (dom_pos d) b) = b) as Hb by lia.
      rewrite Hb, Nat.eqb_refl.
      destruct (IH (dom_skip b d) (configs ++ [upcoming (dom_gen d) (dom_pos d) b]))
        as (full & partial & Heq & Hcat & Hfull & Hlen & Hpart).
      simpl in Heq, Hcat, Hpart.
      exists (upcoming (dom_gen d) (dom_pos d) b :: full), partial.
      rewrite Heq. rewrite dom_skip_skip, length_app, Hb, <- Hcat.
      rewrite <- !app_assoc. simpl. repeat split; auto.
      * simpl in Hlen. lia.
      * destruct Hpart as [->|(batch & -> & Hbatch & Hk)]; [by left |].
        right. exists batch. rewrite Hcat. repeat split; auto; lia.
Qed.

Lemma put_all_spec w i configs jq :
  jq_items (put_all w i configs jq) =
    jq_items jq ++ imap (fun j c => Some (w + (i + j), c)) configs /\
  jq_unfinished (put_all w i configs jq) = jq_unfinished jq + length configs.
Proof.
  revert i jq. induction configs as [|c configs IH]; intros i jq; simpl.
  - split; [by rewrite app_nil_r | lia].
  - destruct (IH (S i) (jq_put (Some (w + i, c)) jq)) as [-> ->]. simpl.
    rewrite <- app_assoc. simpl. rewrite Nat.add_0_r. split; [| lia].
    do 2 f_equal. apply imap_ext. intros j x _. simpl. do 2 f_equal. lia.
Qed.

Lemma task_ids_imap w (configs : list (list Config)) :
  task_ids (imap (fun j c => Some (w + j, c)) configs) = seq w (length configs).
Proof.
  revert w. induction configs as [|c configs IH]; intros w; [done |].
  simpl. unfold task_ids in *. simpl. rewrite Nat.add_0_r. f_equal.
  rewrite <- IH. f_equal. apply imap_ext. intros j x _. simpl.
  do 2 f_equal. lia.
Qed.

Lemma task_ids_app l1 l2 : task_ids (l1 ++ l2) = task_ids l1 ++ task_ids l2.
Proof. unfold task_ids. apply omap_app. Qed.

Lemma length_concat_full b (full : list (list Config)) :
  Forall (fun batch => length batch = b) full ->
  length (concat full) = length full * b.
Proof.
  induction 1 as [|batch full Hb _ IH]; simpl; [done |].
  rewrite length_app, Hb, IH. lia.
Qed.



(** ** DynamicQueue: drawing a finite domain to its end *)

(** [ceil_div s b] is the least [k] with [s <= k * b]. *)
Lemma ceil_div_spec s b :
  0 < b -> s <= ceil_div s b * b /\ ceil_div s b * b < s + b.
Proof.
  intros Hb. unfold ceil_div.
  pose proof (Nat.div_mod_eq (s + b - 1) b) as Hdm.
  pose proof (Nat.mod_upper_bound (s + b - 1) b ltac:(lia)) as Hub.
  nia.
Qed.

Lemma ceil_div_unique s b k : 0 < b -> s <= k * b -> k * b < s + b -> ceil_div s b = k.
Proof.
  intros Hb H1 H2. destruct (ceil_div_spec s b Hb) as [H3 H4]. nia.
Qed.

Lemma ceil_div_0 b : 0 < b -> ceil_div 0 b = 0.
Proof. intros Hb. apply ceil_div_unique; lia. Qed.

Lemma ceil_div_add_mul s n b : 0 < b -> ceil_div (s + n * b) b = ceil_div s b + n.
Proof.
  intros Hb. destruct (ceil_div_spec s b Hb) as [H1 H2].
  apply ceil_div_unique; nia.
Qed.

(** With [r] configurations left in the domain, the outer loop draws
    [min r (n * b)] of them into [ceil(min r (n * b) / b)] batches. *)
Lemma draw_tasks_count b n d configs r :
  0 < b -> remains d r ->
  exists new mid,
    draw_tasks d b n configs =
      (configs ++ new, dom_skip (Nat.min r (n * b)) d, mid) /\
    length new = ceil_div (Nat.min r (n * b)) b /\
    concat new = upcoming (dom_gen d) (dom_pos d) (Nat.min r (n * b)).
Proof.
  intros Hb [Hs Hn].
  destruct (draw_tasks_spec b n d configs)
    as (full & partial & Heq & Hcat & Hfull & Hlen & Hpart).
  simpl in Heq, Hcat, Hpart.
  pose proof (upcoming_length_remains _ _ (n * b) r Hs Hn) as Hk.
  rewrite Hk in Heq, Hpart.
  exists (full ++ partial), (Nat.ltb 0 (length partial)).
  split; [done |].
  assert (length (concat (full ++ partial)) = Nat.min r (n * b)) as Hl
    by by rewrite Hcat.
  rewrite concat_app, length_app, (length_concat_full b full Hfull) in Hl.
  split.
  - symmetry. rewrite length_app.
    destruct Hpart as [->|(batch & -> & Hbatch & _)]; simpl in *.
    + apply ceil_div_unique; lia.
    + rewrite app_nil_r in Hl. apply ceil_div_unique; nia.
  - rewrite Hcat. by apply upcoming_min.
Qed.

Lemma exhaust_spec n b fuel : 0 < n -> 0 < b ->
  forall r q, r < fuel -> n_branches q = b -> remains (domain q) r ->
  exists q' batches,
    exhaust fuel n q = Some q' /\
    length batches = ceil_div r b /\
    concat batches = upcoming (dom_gen (domain q)) (dom_pos (domain q)) r /\
    jq_items (queue q') =
      jq_items (queue q) ++
      imap (fun i c => Some (withdrawn_tasks q + i, c)) batches /\
    withdrawn_tasks q' = withdrawn_tasks q + length batches /\
    finished_tasks q' = finished_tasks q /\
    n_branches q' = b /\
    remains (domain q') 0.
Proof.
  intros Hn Hb. induction fuel as [|fuel IH]; intros r q Hr HB Hrem; [lia |].
  simpl. unfold next_tasks. rewrite HB.
  destruct (draw_tasks_count b n (domain q) [] r Hb Hrem)
    as (new & mid & Heq & Hlen & Hcat).
  simpl in Heq. rewrite Heq.
  destruct (put_all_spec (withdrawn_tasks q) 0 new (queue q)) as [Hitems _].
  simpl in Hitems.
  destruct (Nat.eqb_spec (length new) 0) as [Hz|Hnz].
  - (* nothing was drawn: the domain was exhausted *)
    assert (r = 0) as ->.
    { destruct (ceil_div_spec (Nat.min r (n * b)) b Hb) as [H1 _]. nia. }
    apply length_zero_iff_nil in Hz. subst new.
    eexists _, []. split; [done |]. simpl.
    rewrite ceil_div_0 by done. rewrite app_nil_r, Nat.add_0_r.
    split_and!; try done. by rewrite dom_skip_0.
  - set (k := Nat.min r (n * b)) in *.
    assert (0 < k) as Hk.
    { destruct (Nat.eq_dec k 0) as [Hk0|]; [| lia].
      rewrite Hk0, ceil_div_0 in Hlen by done. lia. }
    set (q1 := {| domain := dom_skip k (domain q); n_branches := b;
                  queue := put_all (withdrawn_tasks q) 0 new (queue q);
                  withdrawn_tasks := withdrawn_tasks q + length new;
                  finished_tasks := finished_tasks q |}).
    assert (k <= r) as Hkr by (subst k; lia).
    assert (k = r \/ (k = n * b /\ n * b < r)) as Hcases by (subst k; lia).
    clearbody k.
    destruct (IH (r - k) q1 ltac:(lia) eq_refl (remains_skip _ _ _ Hrem Hkr))
      as (q' & batches & Hex & Hlen' & Hcat' & Hitems' & Hw & Hf & Hb' & Hrem').
    exists q', (new ++ batches). simpl in *.
    split; [done |]. split_and!; try done.
    + rewrite length_app, Hlen, Hlen'.
      destruct Hcases as [->|[-> Hlt]].
      * rewrite Nat.sub_diag, ceil_div_0 by done. lia.
      * replace (ceil_div (n * b) b) with n
          by (symmetry; apply ceil_div_unique; lia).
        replace (ceil_div r b) with (ceil_div (r - n * b + n * b) b)
          by (f_equal; lia).
        rewrite ceil_div_add_mul by done. lia.
    + rewrite concat_app, Hcat, Hcat'.
      transitivity (upcoming (dom_gen (domain q)) (dom_pos (domain q)) (k + (r - k)));
        [| f_equal; lia].
      rewrite upcoming_app.
      destruct Hrem as [Hs Hnone].
      rewrite (upcoming_length_remains _ _ k r Hs Hnone).
      replace (Nat.min r k) with k by lia. by rewrite Nat.eqb_refl.
    + rewrite Hitems', Hitems, <- app_assoc. f_equal.
      rewrite imap_app. f_equal. apply imap_ext. intros i x _. simpl.
      do 2 f_equal. lia.
    + rewrite Hw, length_app. lia.
Qed.

(** C2.  For a domain of known finite size [S] and [B >= 1] branches, calling
    [next_tasks(n)] ([n >= 1]) until it returns 0 ends, and has by then put
    [ceil(S / B)] tasks in the queue, which hold the [S] configurations in the
    order of the domain; the i-th task put has the id [withdrawn_tasks + i],
    the value of the withdrawal counter when it is put, so the ids are
    [withdrawn_tasks, ..., withdrawn_tasks + ceil(S / B) - 1]: pairwise
    distinct, and distinct from every id given before. *)
Theorem exhaust_assigns_ceil_task_ids (S B n fuel : nat) (q : t) :
  1 <= B -> 1 <= n ->
  n_branches q = B ->
  dom_size (domain q) = Some S -> remains (domain q) S ->
  S < fuel ->
  exists q' batches,
    exhaust fuel n q = Some q' /\
    fst (next_tasks n q') = 0 /\
    length batches = ceil_div S B /\
    concat batches = upcoming (dom_gen (domain q)) (dom_pos (domain q)) S /\
    jq_items (queue q') =
      jq_items (queue q) ++
      imap (fun i c => Some (withdrawn_tasks q + i, c)) batches /\
    task_ids (imap (fun i c => Some (withdrawn_tasks q + i, c)) batches) =
      seq (withdrawn_tasks q) (ceil_div S B) /\
    NoDup (task_ids (imap (fun i c => Some (withdrawn_tasks q + i, c)) batches)) /\
    withdrawn_tasks q' = withdrawn_tasks q + ceil_div S B.
Proof.
  intros HB Hn Hq _ Hrem Hfuel.
  destruct (exhaust_spec n B fuel ltac:(lia) ltac:(lia) S q Hfuel Hq Hrem)
    as (q' & batches & Hex & Hlen & Hcat & Hitems & Hw & Hf & Hb' & Hrem').
  exists q', batches.
  assert (task_ids (imap (fun i c => Some (withdrawn_tasks q + i, c)) batches) =
          seq (withdrawn_tasks q) (ceil_div S B)) as Hids.
  { by rewrite task_ids_imap, Hlen. }
  split_and!; try done.
  - unfold next_tasks.
    destruct (draw_tasks_count (n_branches q') n (domain q') [] 0 ltac:(lia) Hrem')
      as (new & mid & Heq & Hlen0 & _).
    simpl in Heq. rewrite Heq. simpl. rewrite Hlen0. simpl.
    apply ceil_div_0. lia.
  - rewrite Hids. apply NoDup_seq.
  - by rewrite Hw, Hlen.
Qed.

(** ** DynamicQueue: the counters *)

Lemma drain_all k q :
  length (jq_items (queue q)) = k -> jq_unfinished (queue q) = k ->
  drain k q =
    Some {| domain := domain q; n_branches := n_branches q;
            queue := {| jq_items := []; jq_unfinished := 0 |};
            withdrawn_tasks := withdrawn_tasks q;
            finished_tasks := finished_tasks q |}.
Proof.
  revert q. induction k as [|k IH]; intros [d b [items u] w f]; simpl;
    intros Hitems Hu.
  - apply length_zero_iff_nil in Hitems. by subst.
  - destruct items as [|x rest]; [done |]. subst u.
    unfold consume, jq_get, jq_task_done. simpl.
    rewrite IH; simpl; [done | | done]. by injection Hitems.
Qed.

Lemma join_returned q q' :
  join q = Some q' ->
  finished_tasks q' = finished_tasks q + 1 /\
  withdrawn_tasks q' = withdrawn_tasks q /\
  queue q' = queue q /\ domain q' = domain q /\ n_branches q' = n_branches q.
Proof.
  unfold join. destruct (jq_join_released (queue q)); [| done].
  by intros [= <-].
Qed.

(** C1.  Whatever the number [k] of items in the queue, once the consumers
    have taken them and marked them done, [join()] returns, and it leaves
    [finished_tasks] greater by one and nothing else changed; and whenever
    [join()] returns, [finished_tasks] is greater by exactly one. *)
Theorem join_increments_finished_by_one (q : t) (k : nat) :
  length (jq_items (queue q)) = k -> jq_unfinished (queue q) = k ->
  (exists q1,
     drain k q = Some q1 /\
     join q1 =
       Some {| domain := domain q; n_branches := n_branches q;
               queue := {| jq_items := []; jq_unfinished := 0 |};
               withdrawn_tasks := withdrawn_tasks q;
               finished_tasks := finished_tasks q + 1 |}) /\
  (forall q2 q', join q2 = Some q' -> finished_tasks q' = finished_tasks q2 + 1).
Proof.
  intros Hitems Hu. split.
  - eexists. split; [by apply drain_all |]. done.
  - intros q2 q' Hj. by apply join_returned in Hj as [? _].
Qed.

Lemma join_increments_finished_by_one_witness :
  (exists q1,
     drain 2 Examples.queue5_two_waiting = Some q1 /\
     join q1 =
       Some {| domain := domain Examples.queue5_two_waiting;
               n_branches := 2;
               queue := {| jq_items := []; jq_unfinished := 0 |};
               withdrawn_tasks := 2;
               finished_tasks := 0 + 1 |}) /\
  (forall q2 q', join q2 = Some q' -> finished_tasks q' = finished_tasks q2 + 1).
Proof.
  apply (join_increments_finished_by_one Examples.queue5_two_waiting 2);
    reflexivity.
Defined.

Lemma in_progress_iff q :
  in_progress q = true <-> withdrawn_tasks q <> finished_tasks q.
Proof.
  unfold in_progress. rewrite negb_true_iff. apply Nat.eqb_neq.
Qed.

Lemma next_tasks_counters n q :
  withdrawn_tasks (snd (next_tasks n q)) = withdrawn_tasks q + fst (next_tasks n q) /\
  finished_tasks (snd (next_tasks n q)) = finished_tasks q.
Proof.
  unfold next_tasks.
  by destruct (draw_tasks (domain q) (n_branches q) n []) as [[configs d'] mid].
Qed.

Lemma consume_counters q q' :
  consume q = Some q' ->
  withdrawn_tasks q' = withdrawn_tasks q /\ finished_tasks q' = finished_tasks q.
Proof.
  unfold consume. destruct (jq_get (queue q)) as [[x jq]|]; [| done].
  destruct (jq_task_done jq); [| done]. by intros [= <-].
Qed.

Lemma guarded_step_invariant o q q' :
  guarded_step o q = Some q' ->
  finished_tasks q <= withdrawn_tasks q ->
  finished_tasks q' <= withdrawn_tasks q'.
Proof.
  destruct o as [n| |]; simpl.
  - intros [= <-] Hinv. destruct (next_tasks_counters n q) as [-> ->]. lia.
  - destruct (in_progress q) eqn:Hp; [| done].
    apply in_progress_iff in Hp.
    intros Hj Hinv. apply join_returned in Hj as (-> & -> & _). lia.
  - intros Hc Hinv. apply consume_counters in Hc as [-> ->]. lia.
Qed.

Lemma run_guarded_invariant ops q q' :
  run_guarded ops q = Some q' ->
  finished_tasks q <= withdrawn_tasks q ->
  finished_tasks q' <= withdrawn_tasks q'.
Proof.
  revert q. induction ops as [|o ops IH]; intros q; simpl.
  - by intros [= <-].
  - destruct (guarded_step o q) as [q1|] eqn:Hstep; [| done].
    intros Hrun Hinv. eapply IH; [done |]. by eapply guarded_step_invariant.
Qed.

(** C4, as the claim states it, fails: [join()] on a queue nothing was put in
    returns at once and leaves [finished_tasks = 1] above
    [withdrawn_tasks = 0]. *)
Lemma join_on_idle_queue_breaks_invariant :
  ~ (forall d b ops q,
       run_ops ops (init d b) = Some q ->
       finished_tasks q <= withdrawn_tasks q /\
       (in_progress q = true <-> withdrawn_tasks q <> finished_tasks q)).
Proof.
  intros H.
  destruct (H (domain_of_list []) 1 [OpJoin] _ eq_refl) as [Hle _].
  simpl in Hle. lia.
Qed.

(** C4, amended.  In every state reached from the initial one by
    [next_tasks], by the consumers and by [join] called only while
    [in_progress()] holds, [withdrawn_tasks >= finished_tasks]; and
    [in_progress()] is true exactly when the two counters differ. *)
Theorem guarded_runs_keep_withdrawn_ge_finished (d : Domain) (b : nat)
  (ops : list op) (q : t) :
  run_guarded ops (init d b) = Some q ->
  finished_tasks q <= withdrawn_tasks q /\
  (in_progress q = true <-> withdrawn_tasks q <> finished_tasks q).
Proof.
  intros Hrun. split; [| apply in_progress_iff].
  eapply run_guarded_invariant; [done |]. simpl. lia.
Qed.

Lemma guarded_runs_keep_withdrawn_ge_finished_witness :
  exists q,
    run_guarded [OpNextTasks 2; OpConsume; OpConsume; OpJoin; OpNextTasks 2]
      Examples.queue5 = Some q /\
    finished_tasks q <= withdrawn_tasks q /\
    (in_progress q = true <-> withdrawn_tasks q <> finished_tasks q).
Proof.
  eexists. split; [reflexivity |].
  apply (guarded_runs_keep_withdrawn_ge_finished Examples.domain5 2
           [OpNextTasks 2; OpConsume; OpConsume; OpJoin; OpNextTasks 2]).
  reflexivity.
Defined.

Lemma exhaust_assigns_ceil_task_ids_witness :
  exists q' batches,
    exhaust 6 1 Examples.queue5 = Some q' /\
    fst (next_tasks 1 q') = 0 /\
    length batches = ceil_div 5 2 /\
    concat batches = upcoming (dom_gen Examples.domain5) 0 5 /\
    jq_items (queue q') = [] ++ imap (fun i c => Some (0 + i, c)) batches /\
    task_ids (imap (fun i c => Some (0 + i, c)) batches) = seq 0 (ceil_div 5 2) /\
    NoDup (task_ids (imap (fun i c => Some (0 + i, c)) batches)) /\
    withdrawn_tasks q' = 0 + ceil_div 5 2.
Proof.
  apply (exhaust_assigns_ceil_task_ids 5 2 1 6 Examples.queue5).
  - lia.
  - lia.
  - reflexivity.
  - reflexivity.
  - split; simpl.
    + intros i Hi. do 5 (destruct i as [|i]; [by eexists |]). lia.
    + reflexivity.
  - lia.
Defined.

End QueueFacts.

(** ** ResearchResults: [put] and the frames *)

Module ResultsFacts.
Import ResearchResults.




Lemma store_ok_init nm dump : store_ok (init nm dump).
Proof.
  unfold store_ok, init. simpl. split_and!.
  - apply PyDictFacts.wf_nil.
  - intros id r Hin. by apply elem_of_nil in Hin.
  - apply PyDictFacts.wf_nil.
  - intros id Hin. by apply elem_of_nil in Hin.
Qed.

Lemma elem_of_set {V : Type} (k k' : string) (v v' : V) (d : list (string * V)) :
  (k', v') ∈ PyDict.set k v d -> (k' = k /\ v' = v) \/ (k', v') ∈ d.
Proof.
  induction d as [|[k0 v0] d IH]; simpl.
  - intros Hin. apply list_elem_of_singleton in Hin. left. by injection Hin.
  - destruct (decide (k = k0)) as [->|Hne]; intros Hin;
      apply elem_of_cons in Hin as [Heq|Hin].
    + left. by injection Heq.
    + right. by right.
    + right. rewrite Heq. left.
    + destruct (IH Hin) as [?|?]; [by left | right; by right].
Qed.

Lemma store_ok_put id r c s : store_ok s -> results_ok r -> store_ok (put id r c s).
Proof.
  intros (Hr & Hin & Hc & Hsub) Hok. unfold store_ok, put. simpl. split_and!.
  - by apply PyDictFacts.wf_set.
  - intros id' r' Hin'. apply elem_of_set in Hin' as [[_ ->]|Hin']; eauto.
  - by apply PyDictFacts.wf_set.
  - intros id'. rewrite !PyDictFacts.keys_set.
    destruct (decide (id ∈ PyDict.keys (results s))) as [Hi|Hi];
      destruct (decide (id ∈ PyDict.keys (configs s))) as [Hj|Hj];
      rewrite ?elem_of_app, ?list_elem_of_singleton; intros H.
    + by apply Hsub.
    + left. by apply Hsub.
    + destruct H as [H|H]; [by apply Hsub | by subst].
    + destruct H as [H|H]; [left; by apply Hsub | by right].
Qed.

Section Frames.
Variable alias_string : Config -> string.









End Frames.



(** ** ResearchResults: the configs are read, not changed *)




(** ** ResearchResults: filtering the ids *)

(** C6.  [filter_ids_by_configs] raises ValueError when more than one of
    [config], [alias] and [domain] is given, that is, when two of them are;
    with one or none it returns a list of ids; in every case the store is as
    it was. *)
Theorem filter_ids_rejects_two_selectors
  (config alias : option (list (string * pyval))) (domain : option (list Config))
  (kwargs : list (string * pyval)) (s : t) :
  snd (filter_ids_by_configs config alias domain kwargs s) = s /\
  (1 < count_given domain config alias <->
   (is_Some config /\ is_Some alias) \/ (is_Some config /\ is_Some domain) \/
   (is_Some alias /\ is_Some domain)) /\
  (1 < count_given domain config alias ->
   fst (filter_ids_by_configs config alias domain kwargs s) =
     inl (ValueError "Only one of `config`, `alias` and `domain` can be not None")) /\
  (count_given domain config alias <= 1 ->
   exists ids, fst (filter_ids_by_configs config alias domain kwargs s) = inr ids).
Proof.
  unfold filter_ids_by_configs. split_and!.
  - destruct (Nat.ltb 1 _); [done |]. by destruct domain.
  - unfold count_given, is_not_None.
    destruct config, alias, domain; simpl; split; try lia;
      rewrite ?is_Some_alt; try tauto; intros _; eauto 10.
  - intros Hc. apply Nat.ltb_lt in Hc. by rewrite Hc.
  - intros Hc. apply Nat.ltb_ge in Hc. rewrite Hc. destruct domain; by eexists.
Qed.

Lemma contains_all_spec (d items : list (string * pyval)) :
  PyDict.wf items ->
  contains_all d items = true <->
  forall k v, PyDict.get k items = Some v -> PyDict.get k d = Some v.
Proof.
  intros Hwf. unfold contains_all. rewrite forallb_forall. split.
  - intros H k v Hget. apply PyDictFacts.get_Some_elem in Hget.
    apply list_elem_of_In in Hget. specialize (H _ Hget).
    unfold has_item in H. simpl in H. by apply bool_decide_eq_true in H.
  - intros H [k v] Hin. apply list_elem_of_In in Hin.
    unfold has_item. simpl. apply bool_decide_eq_true. apply H.
    by apply PyDictFacts.elem_get.
Qed.

Lemma selected_ids_elem (P : string * Config -> bool) (d : list (string * Config)) id :
  PyDict.wf d ->
  id ∈ omap (fun ic => if P ic then Some ic.1 else None) d <->
  exists c, PyDict.get id d = Some c /\ P (id, c) = true.
Proof.
  intros Hwf. rewrite list_elem_of_omap. split.
  - intros ([id' c] & Hin & Hsel). simpl in Hsel.
    destruct (P (id', c)) eqn:HP; [| done]. injection Hsel as ->.
    exists c. split; [by apply PyDictFacts.elem_get | done].
  - intros (c & Hget & HP). exists (id, c).
    split; [by apply PyDictFacts.get_Some_elem |]. by rewrite HP.
Qed.

Lemma selected_ids_NoDup (P : string * Config -> bool) (d : list (string * Config)) :
  PyDict.wf d -> NoDup (omap (fun ic => if P ic then Some ic.1 else None) d).
Proof.
  induction d as [|[k c] d IH]; intros Hwf; simpl; [apply NoDup_nil_2 |].
  pose proof Hwf as Hwf'.
  apply PyDictFacts.wf_cons_inv in Hwf' as [Hk Hd].
  destruct (P (k, c)); simpl; [| by apply IH].
  apply NoDup_cons. split; [| by apply IH].
  intros Hin. apply selected_ids_elem in Hin as (c' & Hget & _); [| done].
  apply PyDictFacts.get_Some_elem in Hget. apply Hk.
  change k with ((k, c').1). by apply list_elem_of_fmap_2.
Qed.

Lemma filter_by_config_kwargs c0 kw s :
  filter_by_mapping (Some c0) None kw s =
    omap (fun ic : string * Config =>
            if contains_all (config_full ic.2) (PyDict.merge c0 kw)
            then Some ic.1 else None) (configs s).
Proof.
  unfold filter_by_mapping. destruct kw as [|x kw]; done.
Qed.

(** C7, as the claim states it, fails when a keyword filter names a key of
    the config mapping with another value: for [config={x: 1}] and the
    keyword [x=2] the experiment "a" of [store1], whose config has [x = 2]
    and so does not contain the pair [(x, 1)], is returned. *)
Lemma filter_ids_keyword_overrides_config :
  ~ (forall s (c0 kw : list (string * pyval)) ids,
       PyDict.wf c0 -> PyDict.wf kw -> store_ok s ->
       fst (filter_ids_by_configs (Some c0) None None kw s) = inr ids ->
       forall id,
         id ∈ ids <->
         exists c, PyDict.get id (configs s) = Some c /\
                   (forall k v, (k, v) ∈ c0 -> PyDict.get k (config_full c) = Some v) /\
                   (forall k v, (k, v) ∈ kw -> PyDict.get k (config_full c) = Some v)).
Proof.
  intros H.
  assert (PyDict.wf [("x", VInt 1)]) as Hc0 by apply NoDup_singleton.
  assert (PyDict.wf [("x", VInt 2)]) as Hkw by apply NoDup_singleton.
  assert (store_ok Examples.store1) as Hs.
  { apply store_ok_put; [apply store_ok_init |]. split.
    - apply NoDup_singleton.
    - intros nm sr Hin. apply list_elem_of_singleton in Hin.
      injection Hin as _ ->. apply NoDup_singleton. }
  destruct (H Examples.store1 [("x", VInt 1)] [("x", VInt 2)] ["a"]
              Hc0 Hkw Hs eq_refl "a") as [Hin _].
  destruct (Hin ltac:(left)) as (c & Hget & Hx & _).
  injection Hget as <-.
  specialize (Hx "x" (VInt 1) ltac:(left)). done.
Qed.

(** C7, amended.  Called with a partial config mapping and keyword filters,
    [filter_ids_by_configs] returns, each once, the ids whose stored
    Configuration contains every pair of the mapping [{**config, **kwargs}],
    in which a keyword filter takes the place of the entry of [config] under
    the same key; when [config] and the keyword filters agree on the keys
    they share, these are the ids whose Configuration contains all pairs of
    both.  Called with nothing, it returns every id of the store. *)
Theorem filter_ids_by_config_and_keywords (c0 kw : list (string * pyval)) (s : t) :
  PyDict.wf c0 -> PyDict.wf kw -> PyDict.wf (configs s) ->
  exists ids,
    filter_ids_by_configs (Some c0) None None kw s = (inr ids, s) /\
    NoDup ids /\
    (forall id,
       id ∈ ids <->
       exists c, PyDict.get id (configs s) = Some c /\
                 forall k v,
                   match PyDict.get k kw with
                   | Some v' => Some v'
                   | None => PyDict.get k c0
                   end = Some v ->
                   PyDict.get k (config_full c) = Some v) /\
    ((forall k v v', PyDict.get k c0 = Some v -> PyDict.get k kw = Some v' -> v = v') ->
     forall id,
       id ∈ ids <->
       exists c, PyDict.get id (configs s) = Some c /\
                 (forall k v, (k, v) ∈ c0 -> PyDict.get k (config_full c) = Some v) /\
                 (forall k v, (k, v) ∈ kw -> PyDict.get k (config_full c) = Some v)) /\
    filter_ids_by_configs None None None [] s = (inr (PyDict.keys (configs s)), s).
Proof.
  intros Hc0 Hkw Hs. eexists.
  unfold filter_ids_by_configs. simpl. rewrite filter_by_config_kwargs.
  split; [reflexivity |].
  assert (forall id,
            id ∈ omap (fun ic : string * Config =>
                         if contains_all (config_full ic.2) (PyDict.merge c0 kw)
                         then Some ic.1 else None) (configs s) <->
            exists c, PyDict.get id (configs s) = Some c /\
                      forall k v,
                        match PyDict.get k kw with
                        | Some v' => Some v'
                        | None => PyDict.get k c0
                        end = Some v ->
                        PyDict.get k (config_full c) = Some v) as Hchar.
  { intros id. rewrite selected_ids_elem by done. simpl.
    split; intros (c & Hget & Hall); exists c; (split; [done |]).
    - rewrite contains_all_spec in Hall by by apply PyDictFacts.wf_merge.
      intros k v Hkv. apply Hall.
      by rewrite PyDictFacts.get_merge, PyDictFacts.get_reverse.
    - rewrite contains_all_spec by by apply PyDictFacts.wf_merge.
      intros k v Hkv. apply Hall.
      by rewrite PyDictFacts.get_merge, PyDictFacts.get_reverse in Hkv. }
  split_and!.
  - by apply (selected_ids_NoDup
                (fun ic => contains_all (config_full ic.2) (PyDict.merge c0 kw))).
  - exact Hchar.
  - intros Hagree id. rewrite Hchar.
    split; intros (c & Hget & Hall); exists c; (split; [done |]).
    + split; intros k v Hin.
      * apply PyDictFacts.elem_get in Hin; [| done]. apply Hall.
        destruct (PyDict.get k kw) as [v'|] eqn:Hk; [| done].
        f_equal. symmetry. by eapply Hagree.
      * apply PyDictFacts.elem_get in Hin; [| done]. apply Hall. by rewrite Hin.
    + destruct Hall as [Hall0 Hallk]. intros k v Hkv.
      destruct (PyDict.get k kw) as [v'|] eqn:Hk.
      * injection Hkv as ->. apply Hallk. by apply PyDictFacts.get_Some_elem.
      * apply Hall0. by apply PyDictFacts.get_Some_elem.
  - done.
Qed.

Lemma filter_ids_by_config_and_keywords_witness :
  exists ids,
    filter_ids_by_configs (Some [("x", VInt 1)]) None None [("x", VInt 2)]
      Examples.store1 = (inr ids, Examples.store1) /\
    NoDup ids /\
    (forall id,
       id ∈ ids <->
       exists c, PyDict.get id (configs Examples.store1) = Some c /\
                 forall k v,
                   match PyDict.get k [("x", VInt 2)] with
                   | Some v' => Some v'
                   | None => PyDict.get k [("x", VInt 1)]
                   end = Some v ->
                   PyDict.get k (config_full c) = Some v) /\
    ((forall k v v', PyDict.get k [("x", VInt 1)] = Some v ->
                     PyDict.get k [("x", VInt 2)] = Some v' -> v = v') ->
     forall id,
       id ∈ ids <->
       exists c, PyDict.get id (configs Examples.store1) = Some c /\
                 (forall k v, (k, v) ∈ [("x", VInt 1)] ->
                              PyDict.get k (config_full c) = Some v) /\
                 (forall k v, (k, v) ∈ [("x", VInt 2)] ->
                              PyDict.get k (config_full c) = Some v)) /\
    filter_ids_by_configs None None None [] Examples.store1 =
      (inr (PyDict.keys (configs Examples.store1)), Examples.store1).
Proof.
  apply (filter_ids_by_config_and_keywords [("x", VInt 1)] [("x", VInt 2)]
           Examples.store1).
  - apply NoDup_singleton.
  - apply NoDup_singleton.
  - apply NoDup_singleton.
Defined.

End ResultsFacts.

(** ** Research: the folder of the research *)

Module ResearchFacts.
Import Research.





(** The stages of [run] that come before line 250 leave the domain and the
    warnings as they were. *)
Lemma keeps_ret {A : Type} (x : A) : keeps_domain (ret x).
Proof. intros r res r' [= <- <-]. done. Qed.

Lemma keeps_raise {A : Type} (e : exn) : keeps_domain (@raise A e).
Proof. intros r res r' [= <- <-]. done. Qed.

Lemma keeps_lift {A : Type} (x : exn + A) : keeps_domain (lift x).
Proof. intros r res r' [= <- <-]. done. Qed.

Lemma keeps_bind {A B : Type} (m : M A) (k : A -> M B) :
  keeps_domain m -> (forall x, keeps_domain (k x)) -> keeps_domain (bind m k).
Proof.
  intros Hm Hk r res r' Hb. unfold bind in Hb.
  destruct (m r) as [[e|x] r1] eqn:Hmr.
  - injection Hb as <- <-. by eapply Hm.
  - destruct (Hm _ _ _ Hmr) as [<- <-]. by eapply Hk.
Qed.

Lemma keeps_for_each {A : Type} (xs : list A) (body : A -> M unit) :
  (forall x, keeps_domain (body x)) -> keeps_domain (for_each xs body).
Proof.
  intros Hbody. induction xs as [|x xs IH]; simpl.
  - apply keeps_ret.
  - apply keeps_bind; [apply Hbody | intros _; apply IH].
Qed.

Lemma keeps_path_exists p : keeps_domain (path_exists p).
Proof. intros r res r' [= <- <-]. done. Qed.

Lemma keeps_makedirs p : keeps_domain (makedirs p).
Proof.
  intros r res r'. unfold makedirs.
  destruct (bool_decide (p ∈ fs r)); intros [= <- <-]; done.
Qed.

Lemma keeps_choice {A : Type} (c : t -> bool) (m1 m2 : M A) :
  keeps_domain m1 -> keeps_domain m2 ->
  keeps_domain (fun r => (if c r then m1 else m2) r).
Proof.
  intros H1 H2 r res r' Hr. destruct (c r); [by eapply H1 | by eapply H2].
Qed.

Lemma keeps_create_research_folder : keeps_domain create_research_folder.
Proof.
  intros r res r' Hr. unfold create_research_folder in Hr. revert Hr.
  apply keeps_bind; [apply keeps_path_exists |].
  intros ex. destruct ex; cbn [negb]; [apply keeps_raise |].
  apply keeps_bind; [apply keeps_makedirs |]. intros _.
  apply keeps_for_each. intros sub.
  apply keeps_bind; [apply keeps_path_exists |].
  intros ex'. destruct ex'; cbn [negb]; [apply keeps_ret | apply keeps_makedirs].
Qed.

Section Run.
Variable get_devices : run_args -> exn + list (list (list string)).
Variable experiment_dump : gset string -> exn + gset string.
Variable run_command : string -> exn + string.
Variable set_iter_params : Domain -> Domain.
Variable distribute : M unit.


Lemma run_store_args_cases a r :
  (exists e, run_store_args get_devices a r = (inl e, r)) \/
  run_store_args get_devices a r =
    (inr tt,
     {| name := stored_name a r; domain := domain r;
        dump_results := arg_dump_results a; env_ := env_ r; fs := fs r;
        warnings_issued := warnings_issued r |}).
Proof.
  unfold run_store_args, bind, lift, ret, raise.
  destruct (arg_parallel a); [| destruct (arg_workers a) as [n|[|w ws]]];
    try (left; by eexists);
    (destruct (get_devices a) as [e|devs]; [left; by eexists | by right]).
Qed.

Lemma keeps_run_store_args a : keeps_domain (run_store_args get_devices a).
Proof.
  intros r res r' Hr.
  destruct (run_store_args_cases a r) as [[e He]|He];
    rewrite He in Hr; injection Hr as <- <-; done.
Qed.

Lemma keeps_dump_experiment : keeps_domain (dump_experiment experiment_dump).
Proof.
  intros r res r'. unfold dump_experiment.
  destruct (experiment_dump (fs r)); intros [= <- <-]; done.
Qed.

Lemma keeps_attach_env_meta : keeps_domain (attach_env_meta run_command).
Proof.
  unfold attach_env_meta. apply keeps_for_each. intros fc.
  apply keeps_bind; [apply keeps_lift |]. intros result.
  intros r res r'. destruct (dump_results r).
  - apply keeps_bind; [apply keeps_path_exists |]. intros ex.
    apply keeps_bind.
    + destruct ex; cbn [negb]; [apply keeps_ret | apply keeps_makedirs].
    + intros _ r1 res1 r1' [= <- <-]. done.
  - intros [= <- <-]. done.
Qed.

Lemma keeps_run_setup a :
  keeps_domain (run_setup get_devices experiment_dump run_command a).
Proof.
  unfold run_setup.
  apply keeps_bind; [apply keeps_run_store_args |]. intros _.
  apply keeps_bind.
  - apply keeps_choice; [apply keeps_create_research_folder | apply keeps_ret].
  - intros _. unfold run_prepare. apply keeps_bind.
    + apply keeps_choice; [apply keeps_dump_experiment | apply keeps_ret].
    + intros _. apply keeps_attach_env_meta.
Qed.


(** C8: what the code does.  For a domain of unknown size whose update
    function is absent or scheduled only at the end, [run] does not go on:
    it raises, and no warning is issued; once the lines before line 252
    have run, what it raises is the NameError of the name [warnings],
    which research.py does not import. *)
Theorem run_unbounded_raises_NameError (a : run_args) (r : t) :
  unbounded (set_iter_params (domain r)) = true ->
  (exists e r',
     run get_devices experiment_dump run_command set_iter_params distribute a r
       = (inl e, r') /\
     warnings_issued r' = warnings_issued r) /\
  (forall r2,
     run_setup get_devices experiment_dump run_command a r = (inr tt, r2) ->
     run get_devices experiment_dump run_command set_iter_params distribute a r
       = (inl (NameError "warnings"),
          set_domain (set_iter_params (domain r)) r2)).
Proof.
  intros Hunb.
  assert (forall r2,
            run_setup get_devices experiment_dump run_command a r = (inr tt, r2) ->
            run get_devices experiment_dump run_command set_iter_params
              distribute a r
              = (inl (NameError "warnings"),
                 set_domain (set_iter_params (domain r)) r2)) as Hraise.
  { intros r2 Hr2. unfold run, bind at 1. rewrite Hr2.
    destruct (keeps_run_setup a _ _ _ Hr2) as [Hd Hw].
    unfold run_finish, bind at 1, set_domain_iter_params.
    unfold bind at 1, warn_if_unbounded. cbn [domain set_domain].
    rewrite Hd, Hunb. done. }
  split; [| exact Hraise].
  destruct (run_setup get_devices experiment_dump run_command a r)
    as [[e|[]] r2] eqn:Hsetup.
  - exists e, r2. unfold run, bind at 1. rewrite Hsetup.
    split; [done |]. by destruct (keeps_run_setup a _ _ _ Hsetup) as [_ ?].
  - eexists _, _. split; [by apply Hraise |]. simpl.
    by destruct (keeps_run_setup a _ _ _ Hsetup) as [_ ?].
Qed.
End Run.


Lemma run_unbounded_raises_NameError_witness :
  exists r',
    run Examples.devices_none Examples.dump_nothing Examples.command_silent
        Examples.iter_params_kept Examples.distribute_nothing
        Examples.run_no_dump (Examples.research_over Examples.endless_domain)
      = (inl (NameError "warnings"), r') /\
    warnings_issued r' = [].
Proof.
  destruct (run_unbounded_raises_NameError
              Examples.devices_none Examples.dump_nothing Examples.command_silent
              Examples.iter_params_kept Examples.distribute_nothing
              Examples.run_no_dump (Examples.research_over Examples.endless_domain)
              eq_refl) as [_ Hraise].
  eexists. split; [apply Hraise; reflexivity | reflexivity].
Defined.

End ResearchFacts.

(** ** DynamicQueue: edge cases, composition and the ids over a whole run *)

Module QueueExtras.
Import DynamicQueue.

Lemma queue_eta (q : t) :
  {| domain := domain q; n_branches := n_branches q; queue := queue q;
     withdrawn_tasks := withdrawn_tasks q; finished_tasks := finished_tasks q |} = q.
Proof. by destruct q. Qed.

Lemma draw_batch_exhausted d b :
  dom_gen d (dom_pos d) = None -> draw_batch d (S b) [] = ([], d, true).
Proof. intros Hg. simpl. unfold dom_next. by rewrite Hg. Qed.

Lemma draw_tasks_exhausted d b n configs :
  dom_gen d (dom_pos d) = None -> 0 < b ->
  draw_tasks d b n configs = (configs, d, false).
Proof.
  intros Hg Hb. destruct n as [|n]; [done |]. destruct b as [|b]; [lia |].
  cbn [draw_tasks]. by rewrite draw_batch_exhausted.
Qed.

(** [next_tasks] on a domain that is exhausted returns 0 and leaves the
    queue, the counters and the domain as they were. *)
Theorem next_tasks_on_exhausted_domain (n : nat) (q : t) :
  dom_gen (domain q) (dom_pos (domain q)) = None -> 0 < n_branches q ->
  next_tasks n q = (0, q).
Proof.
  intros Hg Hb. unfold next_tasks.
  rewrite draw_tasks_exhausted by done. simpl.
  by rewrite Nat.add_0_r, queue_eta.
Qed.

Lemma next_tasks_on_exhausted_domain_witness :
  next_tasks 3 (init (domain_of_list []) 2) = (0, init (domain_of_list []) 2).
Proof.
  apply (next_tasks_on_exhausted_domain 3 (init (domain_of_list []) 2)).
  - reflexivity.
  - simpl. lia.
Defined.

Lemma draw_tasks_no_branches d n configs :
  draw_tasks d 0 n configs = (configs ++ replicate n [], d, false).
Proof.
  revert configs. induction n as [|n IH]; intros configs; simpl.
  - by rewrite app_nil_r.
  - rewrite IH, <- app_assoc. done.
Qed.

(** With no branches [next_tasks(n)] draws nothing from the domain and still
    puts [n] tasks, each with an empty list of configs, so it never returns 0
    for [n >= 1]: calling it until it returns 0 does not end. *)
Theorem next_tasks_without_branches (n : nat) (q : t) :
  n_branches q = 0 ->
  fst (next_tasks n q) = n /\
  domain (snd (next_tasks n q)) = domain q /\
  jq_items (queue (snd (next_tasks n q))) =
    jq_items (queue q) ++
    imap (fun i c => Some (withdrawn_tasks q + i, c)) (replicate n []) /\
  (1 <= n -> forall fuel, exhaust fuel n q = None).
Proof.
  intros Hb. unfold next_tasks. rewrite Hb, draw_tasks_no_branches. simpl.
  rewrite length_replicate.
  destruct (QueueFacts.put_all_spec (withdrawn_tasks q) 0 (replicate n []) (queue q))
    as [-> _].
  split_and!; try done.
  intros Hn fuel. revert q Hb. induction fuel as [|fuel IH]; intros q Hb; [done |].
    simpl. unfold next_tasks. rewrite Hb, draw_tasks_no_branches. simpl.
    rewrite length_replicate.
    destruct (Nat.eqb_spec n 0) as [->|_]; [lia |]. by apply IH.
Qed.

Lemma next_tasks_without_branches_witness :
  fst (next_tasks 2 (init Examples.domain5 0)) = 2 /\
  domain (snd (next_tasks 2 (init Examples.domain5 0))) = Examples.domain5 /\
  jq_items (queue (snd (next_tasks 2 (init Examples.domain5 0)))) =
    [] ++ imap (fun i c => Some (0 + i, c)) (replicate 2 []) /\
  (1 <= 2 -> forall fuel, exhaust fuel 2 (init Examples.domain5 0) = None).
Proof.
  apply (next_tasks_without_branches 2 (init Examples.domain5 0)). reflexivity.
Defined.

Lemma stop_workers_spec n q :
  stop_workers n q =
    {| domain := domain q; n_branches := n_branches q;
       queue := {| jq_items := jq_items (queue q) ++ replicate n None;
                   jq_unfinished := jq_unfinished (queue q) + n |};
       withdrawn_tasks := withdrawn_tasks q;
       finished_tasks := finished_tasks q |}.
Proof.
  revert q. induction n as [|n IH]; intros [d b [items u] w f]; simpl.
  - by rewrite app_nil_r, Nat.add_0_r.
  - rewrite IH. simpl. rewrite <- app_assoc. simpl.
    do 2 f_equal. lia.
Qed.

(** [stop_workers(n)] puts [n] stop signals behind the tasks that wait and
    touches neither the counters nor the domain; as long as one of them is
    not acknowledged [join] stays blocked; and [n] consumers that each take
    one item from a queue whose tasks are drained take one stop signal each,
    after which the queue is empty and [join] returns. *)
Theorem stop_workers_signals_each_consumer (n : nat) (q : t) :
  jq_items (queue (stop_workers n q)) = jq_items (queue q) ++ replicate n None /\
  withdrawn_tasks (stop_workers n q) = withdrawn_tasks q /\
  finished_tasks (stop_workers n q) = finished_tasks q /\
  domain (stop_workers n q) = domain q /\
  (1 <= n -> join (stop_workers n q) = None) /\
  (jq_items (queue q) = [] -> jq_unfinished (queue q) = 0 ->
   exists q',
     drain n (stop_workers n q) = Some q' /\
     jq_items (queue q') = [] /\ consume q' = None /\ is_Some (join q')).
Proof.
  rewrite stop_workers_spec. simpl. split_and!; try done.
  - intros Hn. unfold join, jq_join_released. simpl.
    destruct (Nat.eqb_spec (jq_unfinished (queue q) + n) 0); [lia | done].
  - intros Hitems Hu. rewrite Hitems, Hu. simpl.
    rewrite QueueFacts.drain_all; simpl; [| by rewrite length_replicate | done].
    eexists. split; [done |]. split_and!; [done | done |].
    unfold join. simpl. by eexists.
Qed.

(** ** The ids over the whole life of a queue *)

Lemma task_ids_replicate_None n : task_ids (replicate n None) = [].
Proof. induction n as [|n IH]; [done |]. exact IH. Qed.

Lemma life_step_ids e (l l' : QueueLife.t) :
  QueueLife.step e l = Some l' ->
  task_ids (QueueLife.taken l ++ jq_items (queue (QueueLife.current l))) =
    seq 0 (withdrawn_tasks (QueueLife.current l)) ->
  task_ids (QueueLife.taken l' ++ jq_items (queue (QueueLife.current l'))) =
    seq 0 (withdrawn_tasks (QueueLife.current l')).
Proof.
  destruct l as [q tk]. destruct e as [n|n| |]; simpl.
  - intros [= <-]. simpl. intros Hinv.
    unfold next_tasks.
    destruct (draw_tasks (domain q) (n_branches q) n []) as [[configs d'] mid].
    simpl.
    destruct (QueueFacts.put_all_spec (withdrawn_tasks q) 0 configs (queue q))
      as [-> _].
    simpl. rewrite app_assoc, QueueFacts.task_ids_app, Hinv.
    rewrite QueueFacts.task_ids_imap. by rewrite seq_app.
  - intros [= <-]. simpl. intros Hinv. rewrite stop_workers_spec. simpl.
    rewrite app_assoc, QueueFacts.task_ids_app, Hinv, task_ids_replicate_None.
    by rewrite app_nil_r.
  - unfold join. destruct (jq_join_released (queue q)); [| done].
    simpl. by intros [= <-].
  - unfold QueueLife.get. simpl. unfold jq_get.
    destruct (jq_items (queue q)) as [|x rest] eqn:Hitems; [done |].
    unfold jq_task_done. simpl.
    destruct (jq_unfinished (queue q)); [done |].
    intros [= <-]. simpl. by rewrite <- app_assoc.
Qed.

(** Over the whole life of a queue, whatever the producer and the consumers
    do, the ids of the tasks taken so far followed by those of the tasks that
    wait are 0, 1, ..., [withdrawn_tasks - 1]: ids are given in the order of
    the puts, none twice and none left out, and the stop signals carry none. *)
Theorem ids_over_the_life_of_a_queue (d : Domain) (b : nat)
  (events : list QueueLife.event) (l : QueueLife.t) :
  QueueLife.run events (QueueLife.start d b) = Some l ->
  task_ids (QueueLife.taken l ++ jq_items (queue (QueueLife.current l))) =
    seq 0 (withdrawn_tasks (QueueLife.current l)) /\
  NoDup (task_ids (QueueLife.taken l ++ jq_items (queue (QueueLife.current l)))).
Proof.
  intros Hrun.
  assert (task_ids (QueueLife.taken l ++ jq_items (queue (QueueLife.current l))) =
          seq 0 (withdrawn_tasks (QueueLife.current l))) as Hids.
  { revert Hrun.
    assert (task_ids (QueueLife.taken (QueueLife.start d b) ++
                      jq_items (queue (QueueLife.current (QueueLife.start d b)))) =
            seq 0 (withdrawn_tasks (QueueLife.current (QueueLife.start d b))))
      as Hstart by done.
    revert Hstart. generalize (QueueLife.start d b). clear d b.
    induction events as [|e events IH]; intros l0 Hinv; simpl.
    - by intros [= <-].
    - destruct (QueueLife.step e l0) as [l1|] eqn:Hstep; [| done].
      apply IH. by eapply life_step_ids. }
  split; [done |]. rewrite Hids. apply NoDup_seq.
Qed.

Lemma ids_over_the_life_of_a_queue_witness :
  exists l,
    QueueLife.run
      [QueueLife.NextTasks 2; QueueLife.Get; QueueLife.NextTasks 1;
       QueueLife.StopWorkers 1; QueueLife.Get; QueueLife.Get; QueueLife.Get;
       QueueLife.Join]
      (QueueLife.start Examples.domain5 2) = Some l /\
    task_ids (QueueLife.taken l ++ jq_items (queue (QueueLife.current l))) =
      seq 0 (withdrawn_tasks (QueueLife.current l)) /\
    NoDup (task_ids (QueueLife.taken l ++ jq_items (queue (QueueLife.current l)))).
Proof.
  eexists. split; [reflexivity |].
  apply (ids_over_the_life_of_a_queue Examples.domain5 2
           [QueueLife.NextTasks 2; QueueLife.Get; QueueLife.NextTasks 1;
            QueueLife.StopWorkers 1; QueueLife.Get; QueueLife.Get; QueueLife.Get;
            QueueLife.Join]).
  reflexivity.
Defined.

(** ** Two calls of [next_tasks] in a row *)

Lemma draw_tasks_acc d b n configs :
  draw_tasks d b n configs =
    ((configs ++ (draw_tasks d b n []).1.1), (draw_tasks d b n []).1.2,
     (draw_tasks d b n []).2).
Proof.
  revert d configs. induction n as [|n IH]; intros d configs; simpl.
  - by rewrite app_nil_r.
  - destruct (draw_batch d b []) as [[bt d'] stop]. destruct stop.
    + destruct (Nat.ltb 0 (length bt)); simpl; [done | by rewrite app_nil_r].
    + rewrite (IH d' (configs ++ [bt])), (IH d' [bt]). simpl.
      by rewrite <- app_assoc.
Qed.

Lemma draw_tasks_add d b n1 n2 :
  (draw_tasks d b (n1 + n2) []).1 =
    ((draw_tasks d b n1 []).1.1 ++
       (draw_tasks (draw_tasks d b n1 []).1.2 b n2 []).1.1,
     (draw_tasks (draw_tasks d b n1 []).1.2 b n2 []).1.2).
Proof.
  revert d. induction n1 as [|n1 IH]; intros d.
  - simpl. by destruct (draw_tasks d b n2 []) as [[c d'] m].
  - cbn [Nat.add draw_tasks]. rewrite QueueFacts.draw_batch_spec. simpl.
    pose proof (upcoming_length_le (dom_gen d) (dom_pos d) b) as Hle.
    destruct (Nat.ltb_spec (length (upcoming (dom_gen d) (dom_pos d) b)) b)
      as [Hlt|Hge].
    + (* the domain is exhausted: the second call finds nothing *)
      assert (draw_tasks (dom_skip (length (upcoming (dom_gen d) (dom_pos d) b)) d)
                b n2 [] =
              ([], dom_skip (length (upcoming (dom_gen d) (dom_pos d) b)) d, false))
        as Hrest.
      { apply draw_tasks_exhausted; [| lia]. simpl.
        by apply upcoming_exhausted. }
      destruct (Nat.ltb 0 (length (upcoming (dom_gen d) (dom_pos d) b)));
        simpl; rewrite Hrest; simpl; by rewrite ?app_nil_r.
    + rewrite (draw_tasks_acc _ b (n1 + n2) [_]), (draw_tasks_acc _ b n1 [_]).
      simpl. rewrite IH. simpl. done.
Qed.

Lemma put_all_app w i c1 c2 jq :
  put_all w i (c1 ++ c2) jq = put_all w (i + length c1) c2 (put_all w i c1 jq).
Proof.
  revert i jq. induction c1 as [|c c1 IH]; intros i jq; simpl.
  - by rewrite Nat.add_0_r.
  - rewrite IH. f_equal. lia.
Qed.

Lemma put_all_shift w k i c jq : put_all (w + k) i c jq = put_all w (k + i) c jq.
Proof.
  revert i jq. induction c as [|x c IH]; intros i jq; simpl; [done |].
  rewrite IH. replace (k + S i) with (S (k + i)) by lia.
  by replace (w + k + i) with (w + (k + i)) by lia.
Qed.

(** [next_tasks(a)] followed by [next_tasks(b)] leaves the queue, the
    counters and the domain as [next_tasks(a + b)] does, and the two calls
    return [a + b]'s value between them: a batch cut short by the end of the
    domain is never filled up by a later call. *)
Theorem next_tasks_twice (a b : nat) (q : t) :
  snd (next_tasks b (snd (next_tasks a q))) = snd (next_tasks (a + b) q) /\
  fst (next_tasks a q) + fst (next_tasks b (snd (next_tasks a q))) =
    fst (next_tasks (a + b) q).
Proof.
  unfold next_tasks.
  pose proof (draw_tasks_add (domain q) (n_branches q) a b) as Hadd.
  destruct (draw_tasks (domain q) (n_branches q) (a + b) []) as [[c d'] m].
  destruct (draw_tasks (domain q) (n_branches q) a []) as [[c1 d1] m1].
  simpl in *.
  destruct (draw_tasks d1 (n_branches q) b []) as [[c2 d2] m2].
  simpl in *. injection Hadd as -> ->.
  rewrite length_app, put_all_app, put_all_shift. simpl.
  split; [| done]. f_equal; [| lia]. do 2 f_equal. lia.
Qed.

End QueueExtras.

(** ** ResearchMonitor: the log *)

Module MonitorFacts.
Import ResearchMonitor.

Lemma row_of_length sig : length (row_of sig) = 10.
Proof. done. Qed.

(** The rows a list of signals adds to the log. *)
Lemma append_rows_lookup filename (sigs : list signal) fs :
  default [] (foldl (fun f sig => append_row filename (row_of sig) f) fs sigs
                !! filename) =
    default [] (fs !! filename) ++ map row_of sigs.
Proof.
  revert fs. induction sigs as [|sig sigs IH]; intros fs; simpl.
  - by rewrite app_nil_r.
  - rewrite IH. unfold append_row. rewrite lookup_insert_eq. simpl.
    by rewrite <- app_assoc.
Qed.

Lemma append_rows_other filename other (sigs : list signal) fs :
  other <> filename ->
  foldl (fun f sig => append_row filename (row_of sig) f) fs sigs !! other =
    fs !! other.
Proof.
  intros Hne. revert fs. induction sigs as [|sig sigs IH]; intros fs; simpl.
  - done.
  - rewrite IH. unfold append_row. by rewrite lookup_insert_ne.
Qed.

Lemma listen_until_stop dmp filename (sigs : list signal) rest fs :
  listen dmp filename (map Some sigs ++ None :: rest) fs =
    (rest,
     if dmp then foldl (fun f sig => append_row filename (row_of sig) f) fs sigs
     else fs,
     true).
Proof.
  revert fs. induction sigs as [|sig sigs IH]; intros fs; simpl.
  - by destruct dmp.
  - rewrite IH. by destruct dmp.
Qed.

Lemma listen_without_stop dmp filename (sigs : list signal) fs :
  listen dmp filename (map Some sigs) fs =
    ([],
     if dmp then foldl (fun f sig => append_row filename (row_of sig) f) fs sigs
     else fs,
     false).
Proof.
  revert fs. induction sigs as [|sig sigs IH]; intros fs; simpl.
  - by destruct dmp.
  - rewrite IH. by destruct dmp.
Qed.

(** The listener takes the signals up to the first stop item and the stop
    item itself, and ends; what follows the stop item stays in the queue.
    When dumping it adds to the log one row of ten cells for each signal
    taken, in the order of the queue; when not dumping it writes nothing.  No
    other file is touched. *)
Theorem listener_logs_until_stop (m : t) (sigs : list signal)
  (rest : list (option signal)) :
  queue m = map Some sigs ++ None :: rest ->
  exists m',
    listener m = (m', true) /\
    queue m' = rest /\
    default [] (files m' !! log_name m) =
      default [] (files m !! log_name m) ++
      (if dump m then map row_of sigs else []) /\
    (forall other, other <> log_name m -> files m' !! other = files m !! other) /\
    Forall (fun row => length row = length COLUMNS) (map row_of sigs).
Proof.
  intros Hq. unfold listener. rewrite Hq, listen_until_stop.
  eexists. split; [done |]. simpl. split_and!.
  - done.
  - destruct (dump m); [apply append_rows_lookup | by rewrite app_nil_r].
  - intros other Hne. destruct (dump m); [by apply append_rows_other | done].
  - apply Forall_forall. intros row Hin.
    apply list_elem_of_fmap in Hin as (sig & -> & _). done.
Qed.

(** Without a stop item in the queue the listener takes every signal, logs
    them in the same way, and does not end: it waits for the next item. *)
Theorem listener_waits_without_stop (m : t) (sigs : list signal) :
  queue m = map Some sigs ->
  exists m',
    listener m = (m', false) /\
    queue m' = [] /\
    default [] (files m' !! log_name m) =
      default [] (files m !! log_name m) ++
      (if dump m then map row_of sigs else []) /\
    (forall other, other <> log_name m -> files m' !! other = files m !! other).
Proof.
  intros Hq. unfold listener. rewrite Hq, listen_without_stop.
  eexists. split; [done |]. simpl. split_and!.
  - done.
  - destruct (dump m); [apply append_rows_lookup | by rewrite app_nil_r].
  - intros other Hne. destruct (dump m); [by apply append_rows_other | done].
Qed.

(** [start(True)] writes the header when the log is missing and leaves a log
    that exists as it is, so starting twice writes one header; [start(False)]
    writes nothing; every [start] starts one more listener and leaves the
    queue alone. *)
Theorem start_writes_header_once (dmp : bool) (m : t) :
  files (start true (start true m)) = files (start true m) /\
  (files m !! log_name m = None ->
   files (start true m) !! log_name m = Some [COLUMNS]) /\
  (is_Some (files m !! log_name m) -> files (start true m) = files m) /\
  (forall other, other <> log_name m ->
     files (start true m) !! other = files m !! other) /\
  files (start false m) = files m /\
  listeners (start dmp m) = S (listeners m) /\
  queue (start dmp m) = queue m.
Proof.
  unfold start, log_name. simpl. split_and!; try done.
  - destruct (files m !! (path m +:+ "/" +:+ "monitor.csv")) as [rows|] eqn:Hf.
    + by rewrite Hf.
    + by rewrite lookup_insert_eq.
  - intros ->. by rewrite lookup_insert_eq.
  - intros [rows ->]. done.
  - intros other Hne.
    destruct (files m !! (path m +:+ "/" +:+ "monitor.csv")); [done |].
    by rewrite lookup_insert_ne.
Qed.

(** The rows of the log for the four events of an execution: the cells
    [task_idx] is never filled; a start row has no worker and no exception;
    only an error row has an exception; the worker cells are filled when
    the executor has a worker. *)
Theorem rows_of_execution_signals (now nm : string) (e : Experiment) :
  let w := match exp_executor_worker e with
           | Some w => py_str (worker_index w)
           | None => ""
           end in
  let wp := match exp_executor_worker e with
            | Some w => py_str (worker_pid w)
            | None => ""
            end in
  row_of (start_signal now nm e) =
    [now; ""; py_str (exp_id e); py_str (exp_iteration e); nm; "start"; "";
     ""; py_str (exp_executor_pid e); ""] /\
  row_of (finish_signal now nm e) =
    [now; ""; py_str (exp_id e); py_str (exp_iteration e); nm; "success"; "";
     w; py_str (exp_executor_pid e); wp] /\
  row_of (fail_signal now nm e) =
    [now; ""; py_str (exp_id e); py_str (exp_iteration e); nm; "error";
     py_str (exp_exception_class e); w; py_str (exp_executor_pid e); wp] /\
  row_of (stop_iteration_signal now nm e) =
    [now; ""; py_str (exp_id e); py_str (exp_iteration e); nm;
     "stop_iteration"; ""; w; py_str (exp_executor_pid e); wp].
Proof.
  unfold start_signal, finish_signal, fail_signal, stop_iteration_signal.
  destruct (exp_executor_worker e) as [w|]; simpl; split_and!; reflexivity.
Qed.

Lemma queue_after_sends (sigs : list signal) (m : t) :
  queue (foldl (fun m sig => put (Some sig) m) m sigs) = queue m ++ map Some sigs /\
  files (foldl (fun m sig => put (Some sig) m) m sigs) = files m /\
  dump (foldl (fun m sig => put (Some sig) m) m sigs) = dump m /\
  path (foldl (fun m sig => put (Some sig) m) m sigs) = path m.
Proof.
  revert m. induction sigs as [|sig sigs IH]; intros m; simpl.
  - by rewrite app_nil_r.
  - destruct (IH (put (Some sig) m)) as (-> & -> & -> & ->). simpl.
    by rewrite <- app_assoc.
Qed.

(** A whole session: the monitor is started with dumping on a path that has
    no log, signals are sent, the monitor is stopped.  The listener then ends
    with the queue empty, and the log is the header followed by one row for
    each signal, in the order they were sent. *)
Theorem monitor_session_log (p : string) (fs : gmap string (list csv_row))
  (sigs : list signal) :
  fs !! (p +:+ "/" +:+ "monitor.csv") = None ->
  exists m',
    listener (stop (foldl (fun m sig => put (Some sig) m)
                          (start true (init p fs)) sigs)) = (m', true) /\
    queue m' = [] /\
    files m' !! (p +:+ "/" +:+ "monitor.csv") = Some (COLUMNS :: map row_of sigs) /\
    (forall other, other <> p +:+ "/" +:+ "monitor.csv" ->
       files m' !! other = fs !! other).
Proof.
  intros Hfresh.
  set (m0 := start true (init p fs)).
  set (m1 := foldl (fun m sig => put (Some sig) m) m0 sigs).
  destruct (queue_after_sends sigs m0) as (Hq & Hf & Hd & Hp). fold m1 in Hq, Hf, Hd, Hp.
  unfold listener, stop, put. simpl. rewrite Hq, Hd. simpl.
  rewrite listen_until_stop. eexists. split; [reflexivity |]. simpl.
  unfold log_name. simpl. rewrite Hp, Hf. simpl. unfold log_name. simpl. rewrite Hfresh.
  split_and!.
  - done.
  - pose proof (append_rows_lookup (p +:+ "/" +:+ "monitor.csv") sigs
                  (<[p +:+ "/" +:+ "monitor.csv" := [COLUMNS]]> fs)) as Hrows.
    rewrite lookup_insert_eq in Hrows. simpl in Hrows.
    destruct (foldl _ _ sigs !! (p +:+ "/" +:+ "monitor.csv")) as [rows|] eqn:Hl.
    + simpl in Hrows. by rewrite Hrows.
    + simpl in Hrows. done.
  - intros other Hne. rewrite append_rows_other by done.
    by rewrite lookup_insert_ne.
Qed.

Lemma listener_logs_until_stop_witness :
  exists m',
    listener MonitorExamples.monitor1 = (m', true) /\
    queue m' = [Some (fail_signal "t2" "sum" MonitorExamples.experiment1)] /\
    default [] (files m' !! log_name MonitorExamples.monitor1) =
      default [] (files MonitorExamples.monitor1 !! log_name MonitorExamples.monitor1) ++
      (if dump MonitorExamples.monitor1
       then map row_of MonitorExamples.signals1 else []) /\
    (forall other, other <> log_name MonitorExamples.monitor1 ->
       files m' !! other = files MonitorExamples.monitor1 !! other) /\
    Forall (fun row => length row = length COLUMNS)
           (map row_of MonitorExamples.signals1).
Proof.
  apply (listener_logs_until_stop MonitorExamples.monitor1 MonitorExamples.signals1
           [Some (fail_signal "t2" "sum" MonitorExamples.experiment1)]).
  reflexivity.
Defined.

Lemma listener_waits_without_stop_witness :
  exists m',
    listener MonitorExamples.monitor2 = (m', false) /\
    queue m' = [] /\
    default [] (files m' !! log_name MonitorExamples.monitor2) =
      default [] (files MonitorExamples.monitor2 !! log_name MonitorExamples.monitor2) ++
      (if dump MonitorExamples.monitor2
       then map row_of MonitorExamples.signals1 else []) /\
    (forall other, other <> log_name MonitorExamples.monitor2 ->
       files m' !! other = files MonitorExamples.monitor2 !! other).
Proof.
  apply (listener_waits_without_stop MonitorExamples.monitor2 MonitorExamples.signals1).
  reflexivity.
Defined.

Lemma monitor_session_log_witness :
  exists m',
    listener (stop (foldl (fun m sig => put (Some sig) m)
                          (start true (init "research" ∅))
                          MonitorExamples.signals1)) = (m', true) /\
    queue m' = [] /\
    files m' !! ("research" +:+ "/" +:+ "monitor.csv") =
      Some (COLUMNS :: map row_of MonitorExamples.signals1) /\
    (forall other, other <> "research" +:+ "/" +:+ "monitor.csv" ->
       files m' !! other = (∅ : gmap string (list csv_row)) !! other).
Proof.
  apply (monitor_session_log "research" ∅ MonitorExamples.signals1).
  apply lookup_empty.
Defined.

End MonitorFacts.

(** ** ResearchResults: loading the files of one result *)

Module LoadFacts.
Import ResultsLoad.

Lemma first_not_below_least (l : list nat) it x :
  StronglySorted le l -> first_not_below l it = inr x ->
  x ∈ l /\ it <= x /\ forall y, y ∈ l -> it <= y -> x <= y.
Proof.
  intros Hsorted. unfold first_not_below.
  destruct (list_find (fun x => it <= x) l) as [[i x']|] eqn:Hfind; [| done].
  intros [= ->]. apply list_find_Some in Hfind as (Hi & Hx & Hbefore).
  split; [by eapply list_elem_of_lookup_2 |]. split; [done |].
  intros y Hy Hity. apply list_elem_of_lookup in Hy as [j Hj].
  destruct (Nat.lt_trichotomy j i) as [Hlt|[->|Hgt]].
  - by destruct (Hbefore j y Hj Hlt).
  - rewrite Hi in Hj. injection Hj as ->. lia.
  - rewrite <- (take_drop_middle l i x Hi) in Hsorted, Hj.
    apply StronglySorted_app_1_r in Hsorted.
    apply StronglySorted_inv in Hsorted as [_ Hall].
    assert (length (take i l) = i) as Hlen.
    { apply length_take_le. apply lookup_lt_Some in Hi. lia. }
    rewrite lookup_app_r in Hj by lia. rewrite Hlen in Hj.
    destruct (j - i) as [|k] eqn:Hk; [lia |]. simpl in Hj.
    eapply Forall_lookup_1 in Hall; eauto.
Qed.

Lemma first_not_below_none (l : list nat) it e :
  first_not_below l it = inl e ->
  e = OtherError "IndexError" /\ forall y, y ∈ l -> y < it.
Proof.
  unfold first_not_below.
  destruct (list_find (fun x => it <= x) l) as [[i x']|] eqn:Hfind; [done |].
  intros [= <-]. split; [done |]. intros y Hy.
  apply list_find_None in Hfind. eapply Forall_forall in Hfind; eauto. lia.
Qed.

Lemma keys_get_is_Some {V : Type} (k : nat) (d : list (nat * V)) :
  k ∈ PyDict.keys d -> is_Some (PyDict.get k d).
Proof.
  intros Hin. destruct (PyDict.get k d) eqn:Hg; [by eexists |].
  by apply PyDictFacts.get_None_keys in Hg.
Qed.

Lemma get_Some_keys {V : Type} (k : nat) (v : V) (d : list (nat * V)) :
  PyDict.get k d = Some v -> k ∈ PyDict.keys d.
Proof.
  intros Hg. apply PyDictFacts.get_Some_elem in Hg.
  change k with ((k, v).1). by apply list_elem_of_fmap_2.
Qed.

(** What [select_files] puts in [files_to_load]. *)
Lemma select_files_keys path dumped its acc files :
  select_files path dumped its acc = inr files ->
  (forall it, it ∈ its -> exists c, first_not_below dumped it = inr c) /\
  forall c, c ∈ PyDict.keys files ->
    c ∈ PyDict.keys acc \/ exists it, it ∈ its /\ first_not_below dumped it = inr c.
Proof.
  revert acc. induction its as [|it its IH]; intros acc; simpl.
  - intros [= <-]. split; [intros it Hin; by apply elem_of_nil in Hin | auto].
  - destruct (first_not_below dumped it) as [e|c0] eqn:Hfirst; [done |].
    intros Hsel. destruct (IH _ Hsel) as [Hall Hkeys]. split.
    + intros it' Hin. apply elem_of_cons in Hin as [->|Hin]; eauto.
    + intros c Hc. destruct (Hkeys c Hc) as [Hacc|(it' & Hin & Hit')].
      * rewrite PyDictFacts.keys_set in Hacc.
        destruct (decide (c0 ∈ PyDict.keys acc)); [by left |].
        apply elem_of_app in Hacc as [?|Hc0]; [by left |].
        apply list_elem_of_singleton in Hc0 as ->.
        right. exists it. split; [left | done].
      * right. exists it'. split; [by right | done].
Qed.

Lemma select_files_error path dumped its acc e :
  select_files path dumped its acc = inl e ->
  exists it, it ∈ its /\ first_not_below dumped it = inl e.
Proof.
  revert acc. induction its as [|it its IH]; intros acc; simpl; [done |].
  destruct (first_not_below dumped it) as [e'|c0] eqn:Hfirst.
  - intros [= <-]. exists it. split; [left | done].
  - intros Hsel. destruct (IH _ Hsel) as (it' & Hin & Hit').
    exists it'. split; [by right | done].
Qed.

(** What [take_values] adds to [results]. *)
Lemma take_values_get iteration values results it :
  PyDict.get it (take_values iteration values results) =
    match PyDict.get it values with
    | Some v => if asked_for iteration it then Some v else PyDict.get it results
    | None => PyDict.get it results
    end.
Proof.
  unfold take_values.
  assert (forall ks res,
            PyDict.get it
              (foldl (fun res it0 =>
                        if asked_for iteration it0
                        then match PyDict.get it0 values with
                             | Some v => PyDict.set it0 v res
                             | None => res
                             end
                        else res) res ks) =
            if bool_decide (it ∈ ks)
            then match PyDict.get it values with
                 | Some v =>
                     if asked_for iteration it then Some v else PyDict.get it res
                 | None => PyDict.get it res
                 end
            else PyDict.get it res) as Hfold.
  { induction ks as [|k ks IH]; intros res; [done |].
    simpl. rewrite IH.
    destruct (decide (it = k)) as [->|Hne].
    - rewrite (bool_decide_eq_true_2 (k ∈ k :: ks)) by left.
      destruct (PyDict.get k values) as [v|] eqn:Hv.
      + destruct (asked_for iteration k); [| by destruct (bool_decide (k ∈ ks))].
        rewrite PyDictFacts.get_set_eq. by destruct (bool_decide (k ∈ ks)).
      + by destruct (asked_for iteration k), (bool_decide (k ∈ ks)).
    - assert (PyDict.get it
                (if asked_for iteration k
                 then match PyDict.get k values with
                      | Some v => PyDict.set k v res
                      | None => res
                      end
                 else res) = PyDict.get it res) as ->.
      { destruct (asked_for iteration k); [| done].
        destruct (PyDict.get k values); [| done].
        by apply PyDictFacts.get_set_ne. }
      destruct (decide (it ∈ ks)) as [Hin|Hnin].
      + rewrite !bool_decide_eq_true_2; [done | by right | done].
      + rewrite !bool_decide_eq_false_2; [done | | done].
        intros Hin. apply elem_of_cons in Hin as [?|?]; done. }
  rewrite Hfold.
  destruct (decide (it ∈ PyDict.keys values)) as [Hin|Hnin].
  - by rewrite bool_decide_eq_true_2.
  - rewrite bool_decide_eq_false_2 by done.
    apply PyDictFacts.get_None_keys in Hnin. by rewrite Hnin.
Qed.

(** Every file named in [files] is in the folder: all are read, and each
    value of the result comes from the results so far or from one of the
    files, under an iteration that was asked for. *)
Lemma load_files_spec dir iteration files acc :
  (forall f, f ∈ files -> f.1 ∈ PyDict.keys dir) ->
  exists res,
    load_files dir iteration files acc = inr res /\
    forall it v,
      PyDict.get it res = Some v ->
      PyDict.get it acc = Some v \/
      exists f values,
        f ∈ files /\ PyDict.get f.1 dir = Some values /\
        PyDict.get it values = Some v /\ asked_for iteration it = true.
Proof.
  revert acc. induction files as [|f files IH]; intros acc Hfiles; simpl.
  - exists acc. split; [done |]. auto.
  - destruct (keys_get_is_Some f.1 dir) as [values Hvalues];
      [apply Hfiles; left |].
    rewrite Hvalues.
    destruct (IH (take_values iteration values acc)) as (res & Hres & Hfrom);
      [intros; apply Hfiles; by right |].
    exists res. split; [done |]. intros it v Hv.
    destruct (Hfrom it v Hv) as [Hacc|(f' & values' & Hin & Hf' & Hit & Hkeep)].
    + rewrite take_values_get in Hacc.
      destruct (PyDict.get it values) as [v'|] eqn:Hitv; [| by left].
      destruct (asked_for iteration it) eqn:Hask; [| by left].
      right. exists f, values. injection Hacc as ->. split_and!; try done. left.
    + right. exists f', values'. split_and!; try done. by right.
Qed.

Lemma sorted_names (dir : directory) :
  StronglySorted le (merge_sort le (PyDict.keys dir)) /\
  forall c, c ∈ merge_sort le (PyDict.keys dir) <-> c ∈ PyDict.keys dir.
Proof.
  split.
  - apply StronglySorted_merge_sort; apply _.
  - intros c. by rewrite merge_sort_Permutation.
Qed.

#[local] Instance key_le_trans : Transitive key_le.
Proof. intros a b c. unfold key_le. lia. Qed.

#[local] Instance key_le_total : Total key_le.
Proof. intros a b. unfold key_le. lia. Qed.

Lemma sorted_items_elem files f : f ∈ sorted_items files <-> f ∈ files.
Proof. unfold sorted_items. by rewrite merge_sort_Permutation. Qed.

(** Loading with a list of iterations.  It raises IndexError exactly when
    some iteration asked for is above every file of the folder (so always
    when the folder is empty and an iteration is asked for).  Otherwise every
    value returned is under an iteration that was asked for, and was read
    from a file chosen for an iteration [it'] asked for: the file with the
    least name that is not below [it']. *)
Theorem load_iteration_files_by_iterations (path : string) (dir : directory)
  (its : list nat) :
  (load_iteration_files path dir (Some its) = inl (OtherError "IndexError") <->
   exists it, it ∈ its /\ forall c, c ∈ PyDict.keys dir -> c < it) /\
  (forall e, load_iteration_files path dir (Some its) = inl e ->
             e = OtherError "IndexError") /\
  (forall results,
     load_iteration_files path dir (Some its) = inr results ->
     forall it v,
       PyDict.get it results = Some v ->
       it ∈ its /\
       exists it' c values,
         it' ∈ its /\ c ∈ PyDict.keys dir /\ it' <= c /\
         (forall c', c' ∈ PyDict.keys dir -> it' <= c' -> c <= c') /\
         PyDict.get c dir = Some values /\ PyDict.get it values = Some v).
Proof.
  destruct (sorted_names dir) as [Hsorted Hnames].
  unfold load_iteration_files.
  destruct (select_files path (merge_sort le (PyDict.keys dir)) its [])
    as [e|files] eqn:Hsel.
  - (* some iteration has no file *)
    apply select_files_error in Hsel as (it & Hin & Hnone).
    apply first_not_below_none in Hnone as [-> Hall].
    split_and!.
    + split; [| done]. intros _. exists it. split; [done |].
      intros c Hc. apply Hall. by apply Hnames.
    + by intros e [= <-].
    + done.
  - destruct (select_files_keys _ _ _ _ _ Hsel) as [Hall Hkeys].
    assert (forall f, f ∈ sorted_items files ->
              exists it', it' ∈ its /\
                first_not_below (merge_sort le (PyDict.keys dir)) it' = inr f.1)
      as Hfiles.
    { intros f Hf. apply (proj1 (sorted_items_elem _ _)) in Hf.
      assert (f.1 ∈ PyDict.keys files) as Hk by by apply list_elem_of_fmap_2.
      destruct (Hkeys f.1 Hk) as [Hnil|Hit]; [| done].
      by apply elem_of_nil in Hnil. }
    destruct (load_files_spec dir (Some its) (sorted_items files) [])
      as (res & Hres & Hfrom).
    { intros f Hf. destruct (Hfiles f Hf) as (it' & _ & Hfirst).
      apply first_not_below_least in Hfirst as [Hc _]; [| done].
      by apply Hnames. }
    rewrite Hres. split_and!.
    + split; [done |]. intros (it & Hin & Habove).
      destruct (Hall it Hin) as [c Hc].
      apply first_not_below_least in Hc as (Hc & Hle & _); [| done].
      apply Hnames, Habove in Hc. lia.
    + done.
    + intros results [= <-] it v Hv.
      destruct (Hfrom it v Hv) as [Hnil|(f & values & Hf & Hdir & Hval & Hask)];
        [done |].
      simpl in Hask. apply bool_decide_eq_true in Hask. split; [done |].
      destruct (Hfiles f Hf) as (it' & Hit' & Hfirst).
      apply first_not_below_least in Hfirst as (Hc & Hle & Hleast); [| done].
      exists it', f.1, values. split_and!; try done.
      * by apply Hnames.
      * intros c' Hc' Hle'. apply Hleast; [by apply Hnames | done].
Qed.

Lemma keys_merge_nil {V : Type} (k : nat) (l : list (nat * V)) :
  k ∈ PyDict.keys (PyDict.merge [] l) <-> k ∈ PyDict.keys l.
Proof.
  rewrite <- (elem_of_reverse k (PyDict.keys l)).
  unfold PyDict.keys at 2. rewrite <- fmap_reverse.
  change (reverse l).*1 with (PyDict.keys (reverse l)).
  pose proof (PyDictFacts.get_merge k [] l) as Hm. simpl in Hm.
  destruct (PyDict.get k (reverse l)) as [v|] eqn:Hr.
  - split; intros _; by eapply get_Some_keys.
  - apply PyDictFacts.get_None_keys in Hm, Hr. tauto.
Qed.

(** Files that do not hold an iteration leave its value as it is. *)
Lemma load_files_keep dir files acc res it :
  load_files dir None files acc = inr res ->
  (forall f values, f ∈ files -> PyDict.get f.1 dir = Some values ->
                    PyDict.get it values = None) ->
  PyDict.get it res = PyDict.get it acc.
Proof.
  revert acc. induction files as [|f files IH]; intros acc; simpl.
  - by intros [= <-].
  - destruct (PyDict.get f.1 dir) as [values|] eqn:Hf; [| done].
    intros Hload Hnone. rewrite (IH _ Hload).
    + rewrite take_values_get, (Hnone f values); [done | left | done].
    + intros f' values' Hin. apply Hnone. by right.
Qed.

(** Of the files that hold an iteration the last one read decides. *)
Lemma load_files_last_wins dir l1 f l2 acc res it values v :
  load_files dir None (l1 ++ f :: l2) acc = inr res ->
  PyDict.get f.1 dir = Some values -> PyDict.get it values = Some v ->
  (forall f' values', f' ∈ l2 -> PyDict.get f'.1 dir = Some values' ->
                      PyDict.get it values' = None) ->
  PyDict.get it res = Some v.
Proof.
  revert acc. induction l1 as [|x l1 IH]; intros acc; simpl.
  - intros Hload Hf Hv Hnone. rewrite Hf in Hload.
    rewrite (load_files_keep _ _ _ _ it Hload) by done.
    by rewrite take_values_get, Hv.
  - destruct (PyDict.get x.1 dir) as [xvalues|]; [| done].
    intros Hload. by eapply IH.
Qed.

(** Loading with no list of iterations never raises.  Every value returned
    was read from a file of the folder; and an iteration that several files
    hold gets the value of the file with the greatest name among them, the
    files being read in the order of their names. *)
Theorem load_iteration_files_all (path : string) (dir : directory) :
  exists results,
    load_iteration_files path dir None = inr results /\
    (forall it v,
       PyDict.get it results = Some v ->
       exists c values, PyDict.get c dir = Some values /\
                        PyDict.get it values = Some v) /\
    (forall c values it v,
       PyDict.get c dir = Some values -> PyDict.get it values = Some v ->
       (forall c' values', c < c' -> PyDict.get c' dir = Some values' ->
                           PyDict.get it values' = None) ->
       PyDict.get it results = Some v).
Proof.
  unfold load_iteration_files.
  set (files := PyDict.merge []
                  (map (fun f : nat * ResearchResults.series =>
                          (f.1, path +:+ "/" +:+ pretty f.1)) dir)).
  assert (forall c, c ∈ PyDict.keys files <-> c ∈ PyDict.keys dir) as Hkeys.
  { intros c. unfold files. rewrite keys_merge_nil.
    unfold PyDict.keys. by rewrite <- list_fmap_compose. }
  assert (PyDict.wf files) as Hwf
    by (apply PyDictFacts.wf_merge, PyDictFacts.wf_nil).
  destruct (load_files_spec dir None (sorted_items files) [])
    as (res & Hres & Hfrom).
  { intros f Hf. apply Hkeys. apply (proj1 (sorted_items_elem _ _)) in Hf.
    by apply list_elem_of_fmap_2. }
  exists res. split; [done |]. split.
  - intros it v Hv.
    destruct (Hfrom it v Hv) as [Hnil|(f & values & _ & Hdir & Hval & _)];
      [done | eauto].
  - intros c values it v Hc Hv Hlater.
    assert (c ∈ PyDict.keys files) as Hin by (apply Hkeys; by eapply get_Some_keys).
    apply list_elem_of_fmap in Hin as (f & -> & Hf).
    apply sorted_items_elem in Hf.
    apply list_elem_of_split in Hf as (l1 & l2 & Hsplit).
    rewrite Hsplit in Hres.
    eapply load_files_last_wins; eauto.
    intros f' values' Hf' Hdir'. apply (Hlater f'.1); [| done].
    assert (StronglySorted key_le (sorted_items files)) as Hsorted
      by (apply StronglySorted_merge_sort; apply _).
    assert (NoDup (sorted_items files).*1) as Hnd.
    { unfold sorted_items. by rewrite merge_sort_Permutation. }
    rewrite Hsplit in Hsorted, Hnd.
    apply StronglySorted_app_1_r, StronglySorted_inv in Hsorted as [_ Hall].
    eapply Forall_forall in Hall; eauto. unfold key_le in Hall.
    rewrite fmap_app in Hnd. apply NoDup_app in Hnd as (_ & _ & Hnd).
    simpl in Hnd. apply NoDup_cons in Hnd as [Hnotin _].
    assert (f'.1 <> f.1).
    { intros Heq. apply Hnotin. rewrite <- Heq. by apply list_elem_of_fmap_2. }
    lia.
Qed.

End LoadFacts.

(** ** ResearchResults: the other ways to filter, and [put] on other ids *)

Module ResultsExtras.
Import ResearchResults.

Lemma filter_by_alias_kwargs a0 kw s :
  filter_by_mapping None (Some a0) kw s =
    omap (fun ic : string * Config =>
            if contains_all (config_alias ic.2) (PyDict.merge a0 kw)
            then Some ic.1 else None) (configs s).
Proof. unfold filter_by_mapping. destruct kw as [|x kw]; done. Qed.

Lemma config_full_wf (c : Config) : PyDict.wf (config_full c).
Proof. apply PyDictFacts.wf_merge, PyDictFacts.wf_nil. Qed.

(** The merged mapping [{**d1, **d2}] looked up. *)
Lemma get_merged (d1 d2 : list (string * pyval)) k :
  PyDict.wf d2 ->
  PyDict.get k (PyDict.merge d1 d2) =
    match PyDict.get k d2 with Some v => Some v | None => PyDict.get k d1 end.
Proof. intros Hwf. by rewrite PyDictFacts.get_merge, PyDictFacts.get_reverse. Qed.

(** Called with an alias mapping and keyword filters,
    [filter_ids_by_configs] compares with the alias form of the stored
    configs: it returns, each once, the ids whose alias mapping contains
    every pair of [{**alias, **kwargs}]. *)
Theorem filter_ids_by_alias_and_keywords (a0 kw : list (string * pyval)) (s : t) :
  PyDict.wf a0 -> PyDict.wf kw -> PyDict.wf (configs s) ->
  exists ids,
    filter_ids_by_configs None (Some a0) None kw s = (inr ids, s) /\
    NoDup ids /\
    forall id,
      id ∈ ids <->
      exists c, PyDict.get id (configs s) = Some c /\
                forall k v,
                  match PyDict.get k kw with
                  | Some v' => Some v'
                  | None => PyDict.get k a0
                  end = Some v ->
                  PyDict.get k (config_alias c) = Some v.
Proof.
  intros Ha0 Hkw Hs. eexists.
  unfold filter_ids_by_configs. simpl. rewrite filter_by_alias_kwargs.
  split; [reflexivity |]. split.
  - by apply (ResultsFacts.selected_ids_NoDup
                (fun ic => contains_all (config_alias ic.2) (PyDict.merge a0 kw))).
  - intros id. rewrite ResultsFacts.selected_ids_elem by done. simpl.
    split; intros (c & Hget & Hall); exists c; (split; [done |]).
    + rewrite ResultsFacts.contains_all_spec in Hall by by apply PyDictFacts.wf_merge.
      intros k v Hkv. apply Hall. by rewrite get_merged.
    + rewrite ResultsFacts.contains_all_spec by by apply PyDictFacts.wf_merge.
      intros k v Hkv. apply Hall. by rewrite get_merged in Hkv.
Qed.

Lemma filter_ids_by_alias_and_keywords_witness :
  exists ids,
    filter_ids_by_configs None (Some [("x", VInt 2)]) None [] Examples.store1
      = (inr ids, Examples.store1) /\
    NoDup ids /\
    forall id,
      id ∈ ids <->
      exists c, PyDict.get id (configs Examples.store1) = Some c /\
                forall k v,
                  match PyDict.get k (@nil (string * pyval)) with
                  | Some v' => Some v'
                  | None => PyDict.get k [("x", VInt 2)]
                  end = Some v ->
                  PyDict.get k (config_alias c) = Some v.
Proof.
  apply (filter_ids_by_alias_and_keywords [("x", VInt 2)] [] Examples.store1).
  - apply NoDup_singleton.
  - apply NoDup_nil_2.
  - apply NoDup_singleton.
Defined.

(** Called with keyword filters alone, [filter_ids_by_configs] compares
    them with the full form of the stored configs, as if they were given as
    [config]. *)
Theorem filter_ids_by_keywords_alone (kw : list (string * pyval)) (s : t) :
  kw <> [] ->
  filter_ids_by_configs None None None kw s =
    filter_ids_by_configs (Some kw) None None [] s.
Proof.
  intros Hkw. unfold filter_ids_by_configs, filter_by_mapping. simpl.
  by destruct kw.
Qed.

Lemma filter_ids_by_keywords_alone_witness :
  filter_ids_by_configs None None None [("x", VInt 2)] Examples.store1 =
    filter_ids_by_configs (Some [("x", VInt 2)]) None None [] Examples.store1.
Proof.
  apply (filter_ids_by_keywords_alone [("x", VInt 2)] Examples.store1). done.
Defined.

(** Called with a domain, [filter_ids_by_configs] returns the ids found for
    the configs of the domain one after the other: an id is returned when
    its stored config contains the full form of some config of the domain
    (and once for each such config).  The keyword filters play no part. *)
Theorem filter_ids_by_domain (dom : list Config) (kw : list (string * pyval)) (s : t) :
  PyDict.wf (configs s) ->
  exists ids,
    filter_ids_by_configs None None (Some dom) kw s = (inr ids, s) /\
    filter_ids_by_configs None None (Some dom) [] s = (inr ids, s) /\
    ids = dom ≫= (fun c => match filter_ids_by_configs (Some (config_full c))
                                   None None [] s with
                           | (inr l, _) => l
                           | (inl _, _) => []
                           end) /\
    forall id,
      id ∈ ids <->
      exists c stored,
        c ∈ dom /\ PyDict.get id (configs s) = Some stored /\
        forall k v, PyDict.get k (config_full c) = Some v ->
                    PyDict.get k (config_full stored) = Some v.
Proof.
  intros Hs. eexists. unfold filter_ids_by_configs. simpl.
  split; [reflexivity |]. split; [reflexivity |]. split; [reflexivity |].
  intros id. rewrite list_elem_of_bind. split.
  - intros (c & Hin & Hc). rewrite ResultsFacts.filter_by_config_kwargs in Hin.
    apply ResultsFacts.selected_ids_elem in Hin as (stored & Hget & Hall); [| done].
    simpl in Hall.
    rewrite ResultsFacts.contains_all_spec in Hall by apply config_full_wf.
    exists c, stored. split_and!; done.
  - intros (c & stored & Hc & Hget & Hall). exists c. split; [| done].
    rewrite ResultsFacts.filter_by_config_kwargs.
    apply ResultsFacts.selected_ids_elem; [done |]. exists stored.
    split; [done |]. simpl.
    by rewrite ResultsFacts.contains_all_spec by apply config_full_wf.
Qed.

Lemma filter_ids_by_domain_witness :
  exists ids,
    filter_ids_by_configs None None (Some [Examples.cfg 2; Examples.cfg 3])
      [("x", VInt 7)] Examples.store1 = (inr ids, Examples.store1) /\
    filter_ids_by_configs None None (Some [Examples.cfg 2; Examples.cfg 3])
      [] Examples.store1 = (inr ids, Examples.store1) /\
    ids = [Examples.cfg 2; Examples.cfg 3] ≫=
            (fun c => match filter_ids_by_configs (Some (config_full c))
                              None None [] Examples.store1 with
                      | (inr l, _) => l
                      | (inl _, _) => []
                      end) /\
    forall id,
      id ∈ ids <->
      exists c stored,
        c ∈ [Examples.cfg 2; Examples.cfg 3] /\
        PyDict.get id (configs Examples.store1) = Some stored /\
        forall k v, PyDict.get k (config_full c) = Some v ->
                    PyDict.get k (config_full stored) = Some v.
Proof.
  apply (filter_ids_by_domain [Examples.cfg 2; Examples.cfg 3] [("x", VInt 7)]
           Examples.store1).
  apply NoDup_singleton.
Defined.

(** [put] under one id leaves what is stored under every other id as it is,
    keeps the order of the ids, and puts a new id last. *)
Theorem put_keeps_other_ids (id id' : string) (r : experiment_results)
  (c : Config) (s : t) :
  (id' <> id ->
   PyDict.get id' (results (put id r c s)) = PyDict.get id' (results s) /\
   PyDict.get id' (configs (put id r c s)) = PyDict.get id' (configs s)) /\
  PyDict.keys (results (put id r c s)) =
    (if decide (id ∈ PyDict.keys (results s))
     then PyDict.keys (results s) else PyDict.keys (results s) ++ [id]) /\
  PyDict.keys (configs (put id r c s)) =
    (if decide (id ∈ PyDict.keys (configs s))
     then PyDict.keys (configs s) else PyDict.keys (configs s) ++ [id]).
Proof.
  unfold put. simpl. split_and!.
  - intros Hne. by rewrite !PyDictFacts.get_set_ne.
  - apply PyDictFacts.keys_set.
  - apply PyDictFacts.keys_set.
Qed.

End ResultsExtras.
